(** * The foraging environment of [hebbian-ai.py]

    A shallow embedding of the environment/agent loop of the script: the
    toroidal reward grid, the vision window, reward collection and respawn,
    and the movement step.  The script works on module-level variables; they
    are the fields of the record [game], and each block of the script is a
    function on that record.

    - Python integers are [Z]; [%] with a positive modulus is [Z.modulo] and
      [//] is [Z.div] (both round towards minus infinity, as Python does).
    - A 2-D numpy array is a list of rows.  The arrays of the script only ever
      hold the floats [0.0] and [1.0], written and compared as [0] and [1];
      cells are [Z].
    - [random.randint] reads an entropy stream [entropy : nat -> Z] at a
      cursor kept in the state; every integer of the requested interval can
      come out.
    - [ai_bot] is the imported policy object: an abstract state with the two
      methods the script calls.
    - Indexing outside an array raises [IndexError]; the [while True] respawn
      search runs on a step budget and answers [OutOfFuel] when the budget is
      used up before the search has finished. *)

From Stdlib Require Import ZArith Lia.
From stdpp Require Import base decidable option list.

Local Open Scope Z_scope.

(** ** Outcomes of a block of the script *)

Inductive exn : Set := IndexError.

Inductive outcome (A : Type) : Type :=
| Done (a : A)
| Raise (e : exn)
| OutOfFuel.

Arguments Done {A} a.
Arguments Raise {A} e.
Arguments OutOfFuel {A}.

#[global] Instance outcome_ret : MRet outcome := @Done.
#[global] Instance outcome_bind : MBind outcome := λ A B f m,
  match m with
  | Done a => f a
  | Raise e => Raise e
  | OutOfFuel => OutOfFuel
  end.

(** [for x in l: body] over a state. *)
Fixpoint for_each {A St : Type} (l : list A) (body : A → St → outcome St)
    (s : St) : outcome St :=
  match l with
  | [] => Done s
  | x :: l' => s' ← body x s; for_each l' body s'
  end.

(** ** numpy arrays *)

(** [np.zeros((n, m))], for the non-negative sizes it accepts. *)
Definition np_zeros (n m : Z) : list (list Z) :=
  replicate (Z.to_nat n) (replicate (Z.to_nat m) 0).

(** An index on an axis of length [len]: negative indices count from the
    end, anything else outside the axis is an [IndexError]. *)
Definition np_index (len : nat) (i : Z) : outcome nat :=
  if bool_decide (0 ≤ i < Z.of_nat len) then Done (Z.to_nat i)
  else if bool_decide (- Z.of_nat len ≤ i < 0) then Done (Z.to_nat (i + Z.of_nat len))
  else Raise IndexError.

(** [a[r, c]] *)
Definition np_get (a : list (list Z)) (r c : Z) : outcome Z :=
  i ← np_index (length a) r;
  match a !! i with
  | Some row =>
      j ← np_index (length row) c;
      match row !! j with
      | Some v => Done v
      | None => Raise IndexError
      end
  | None => Raise IndexError
  end.

(** [a[r, c] = v] *)
Definition np_set (a : list (list Z)) (r c v : Z) : outcome (list (list Z)) :=
  i ← np_index (length a) r;
  match a !! i with
  | Some row =>
      j ← np_index (length row) c;
      Done (<[i := <[j := v]> row]> a)
  | None => Raise IndexError
  end.

(** [a.flatten()]: the rows one after the other. *)
Definition flatten (a : list (list Z)) : list Z := concat a.

(** The shape of an array. *)
Definition shape (n m : Z) (a : list (list Z)) : Prop :=
  Z.of_nat (length a) = n ∧ Forall (λ row, Z.of_nat (length row) = m) a.

#[global] Instance shape_dec n m a : Decision (shape n m a).
Proof. unfold shape. apply _. Defined.

(** Number of cells of a row, and of a grid, that hold a reward: the cells
    the script tests with [== 1]. *)
Definition row_rewards (row : list Z) : nat :=
  length (filter (λ c, c = 1) row).

Definition reward_count (a : list (list Z)) : nat :=
  sum_list_with row_rewards a.

(** What a cell of value [c] adds to the count. *)
Definition is_reward (c : Z) : nat := if bool_decide (c = 1) then 1%nat else 0%nat.

(** Every cell is [0] or [1]. *)
Definition binary (a : list (list Z)) : Prop :=
  Forall (Forall (λ c, c = 0 ∨ c = 1)) a.

#[global] Instance binary_dec a : Decision (binary a).
Proof. unfold binary. apply _. Defined.

(** No cell is [0]: nowhere to respawn. *)
Definition no_empty_cell (a : list (list Z)) : Prop :=
  Forall (Forall (λ c, c ≠ 0)) a.

#[global] Instance no_empty_cell_dec a : Decision (no_empty_cell a).
Proof. unfold no_empty_cell. apply _. Defined.

(** ** The game *)

(** Game parameters of the script.  The script fixes them
    ([source_params] below); here they are parameters, and the properties
    that depend on it assume [0 < WORLD_SIZE], the sizes for which [%] and
    [randint(0, WORLD_SIZE - 1)] are what the model says. *)
Class Params : Type := {
  WORLD_SIZE : Z;
  VISION_SIZE : Z;
  REWARD_AMOUNT : Z
}.

(** The policy object of [ai_bot.py], as far as the script uses it: its
    state, its constructor and the two methods called by the loop. *)
Class Policy (B : Type) : Type := {
  AI_Bot : Z → B;
  choose_action : B → list Z → Z → B * Z;
  draw_neural_network : B → list (list Z) → B
}.

(** What the random generator will deliver. *)
Class Entropy : Type := entropy : nat → Z.

Section Game.

Context {params : Params} {AI_Bot_state : Type} {policy : Policy AI_Bot_state}
  {ent : Entropy}.

Definition BOT_VISION_RANGE : Z := VISION_SIZE / 2.

(** The module-level variables of the script. *)
Record game : Type := Game {
  world : list (list Z);
  bot_x : Z;
  bot_y : Z;
  vision : list (list Z);
  vision_flat : list Z;
  reward : Z;
  movement : Z;
  ai_bot : AI_Bot_state;
  rng : nat
}.

Definition set_world (w : list (list Z)) (s : game) : game :=
  Game w (bot_x s) (bot_y s) (vision s) (vision_flat s) (reward s)
       (movement s) (ai_bot s) (rng s).
Definition set_bot_x (x : Z) (s : game) : game :=
  Game (world s) x (bot_y s) (vision s) (vision_flat s) (reward s)
       (movement s) (ai_bot s) (rng s).
Definition set_bot_y (y : Z) (s : game) : game :=
  Game (world s) (bot_x s) y (vision s) (vision_flat s) (reward s)
       (movement s) (ai_bot s) (rng s).
Definition set_vision (v : list (list Z)) (s : game) : game :=
  Game (world s) (bot_x s) (bot_y s) v (vision_flat s) (reward s)
       (movement s) (ai_bot s) (rng s).
Definition set_vision_flat (v : list Z) (s : game) : game :=
  Game (world s) (bot_x s) (bot_y s) (vision s) v (reward s)
       (movement s) (ai_bot s) (rng s).
Definition set_reward (r : Z) (s : game) : game :=
  Game (world s) (bot_x s) (bot_y s) (vision s) (vision_flat s) r
       (movement s) (ai_bot s) (rng s).
Definition set_movement (m : Z) (s : game) : game :=
  Game (world s) (bot_x s) (bot_y s) (vision s) (vision_flat s) (reward s)
       m (ai_bot s) (rng s).
Definition set_ai_bot (b : AI_Bot_state) (s : game) : game :=
  Game (world s) (bot_x s) (bot_y s) (vision s) (vision_flat s) (reward s)
       (movement s) b (rng s).
Definition set_rng (n : nat) (s : game) : game :=
  Game (world s) (bot_x s) (bot_y s) (vision s) (vision_flat s) (reward s)
       (movement s) (ai_bot s) n.

(** [random.randint(a, b)]: an integer of [a..b], and the generator moves
    on. *)
Definition randint (a b : Z) (s : game) : Z * game :=
  (a + entropy (rng s) mod (b - a + 1), set_rng (S (rng s)) s).

(** The cell two successive calls [new_x = randint(0, WORLD_SIZE - 1)],
    [new_y = randint(0, WORLD_SIZE - 1)] designate when the first is served
    at cursor [c]. *)
Definition draw_x (c : nat) : Z := entropy c mod WORLD_SIZE.
Definition draw_y (c : nat) : Z := entropy (S c) mod WORLD_SIZE.

(** *** Start-up (lines 24-37) *)

(** One round of the spawn loop:
    [x = randint(..); y = randint(..); world[y, x] = 1]. *)
Definition spawn_reward (s : game) : outcome game :=
  let '(x, s) := randint 0 (WORLD_SIZE - 1) s in
  let '(y, s) := randint 0 (WORLD_SIZE - 1) s in
  w ← np_set (world s) y x 1;
  Done (set_world w s).

(** The state when the first line of start-up runs: an all-zero world.
    The variables that are bound later in the script already carry the
    value of their first assignment ([bot_x = 1], [bot_y = 1],
    [ai_bot = AI_Bot(VISION_SIZE)]); the per-tick variables are bound by
    the first tick before they are read. *)
Definition blank : game :=
  Game (np_zeros WORLD_SIZE WORLD_SIZE) 1 1 [] [] 0 0 (AI_Bot VISION_SIZE) O.

Definition init : outcome game :=
  for_each (seqZ 0 REWARD_AMOUNT) (λ _, spawn_reward) blank.

(** *** Vision (lines 48-56) *)

(** The toroidal addressing of the block,
    [world[y % WORLD_SIZE, x % WORLD_SIZE]], for coordinates [x], [y] that
    may lie outside the grid. *)
Definition read (w : list (list Z)) (x y : Z) : outcome Z :=
  np_get w (y mod WORLD_SIZE) (x mod WORLD_SIZE).

(** The cell of the world under window cell [(i, j)]. *)
Definition world_y_of (s : game) (i : Z) : Z :=
  (bot_y s - BOT_VISION_RANGE + i) mod WORLD_SIZE.
Definition world_x_of (s : game) (j : Z) : Z :=
  (bot_x s - BOT_VISION_RANGE + j) mod WORLD_SIZE.

(** Body of the inner loop: [vision[i, j] = world[world_y, world_x]]. *)
Definition look (i j : Z) (s : game) : outcome game :=
  let world_y := world_y_of s i in
  let world_x := world_x_of s j in
  c ← np_get (world s) world_y world_x;
  v ← np_set (vision s) i j c;
  Done (set_vision v s).

Definition get_vision (s : game) : outcome game :=
  s ← for_each (seqZ 0 VISION_SIZE)
        (λ i, for_each (seqZ 0 VISION_SIZE) (λ j, look i j))
        (set_vision (np_zeros VISION_SIZE VISION_SIZE) s);
  Done (set_vision_flat (flatten (vision s)) s).

(** *** Reward at the current position (lines 58-72) *)

(** The [while True] search for an empty cell. *)
Fixpoint spawn_new_reward (fuel : nat) (s : game) : outcome game :=
  match fuel with
  | O => OutOfFuel
  | S fuel' =>
      let '(new_x, s) := randint 0 (WORLD_SIZE - 1) s in
      let '(new_y, s) := randint 0 (WORLD_SIZE - 1) s in
      c ← np_get (world s) new_y new_x;
      if bool_decide (c = 0) then
        w ← np_set (world s) new_y new_x 1;
        Done (set_world w s)
      else spawn_new_reward fuel' s
  end.

Definition check_reward (fuel : nat) (s : game) : outcome game :=
  r ← np_get (world s) (bot_y s) (bot_x s);
  let s := set_reward r s in
  if bool_decide (reward s = 1) then
    w ← np_set (world s) (bot_y s) (bot_x s) 0;
    spawn_new_reward fuel (set_world w s)
  else Done (set_reward 0 s).

(** *** Movement (lines 74-85) *)

Definition query_policy (s : game) : game :=
  let '(b, m) := choose_action (ai_bot s) (vision_flat s) (reward s) in
  set_movement m (set_ai_bot b s).

Definition update_position (s : game) : game :=
  if bool_decide (movement s = 0) then
    set_bot_y ((bot_y s - 1) mod WORLD_SIZE) s
  else if bool_decide (movement s = 1) then
    set_bot_y ((bot_y s + 1) mod WORLD_SIZE) s
  else if bool_decide (movement s = 2) then
    set_bot_x ((bot_x s - 1) mod WORLD_SIZE) s
  else if bool_decide (movement s = 3) then
    set_bot_x ((bot_x s + 1) mod WORLD_SIZE) s
  else s.

(** *** Drawing (lines 87-113)

    Drawing reads the variables of the game and writes none of them; the
    one call that reaches the policy object is
    [ai_bot.draw_neural_network(screen, vision)]. *)
Definition draw (s : game) : game :=
  set_ai_bot (draw_neural_network (ai_bot s) (vision s)) s.

(** *** One round of the game loop, and [n] rounds *)

Definition tick (fuel : nat) (s : game) : outcome game :=
  s ← get_vision s;
  s ← check_reward fuel s;
  Done (draw (update_position (query_policy s))).

Fixpoint run (fuel : nat) (n : nat) (s : game) : outcome game :=
  match n with
  | O => Done s
  | S n' => s' ← tick fuel s; run fuel n' s'
  end.

(** *** Well-formed states

    The world has its shape and the agent stands on a cell of it. *)
Definition game_ok (s : game) : Prop :=
  shape WORLD_SIZE WORLD_SIZE (world s)
  ∧ 0 ≤ bot_x s < WORLD_SIZE ∧ 0 ≤ bot_y s < WORLD_SIZE.

#[global] Instance game_ok_dec s : Decision (game_ok s).
Proof. unfold game_ok. apply _. Defined.

End Game.

(** ** The script's own parameters, and sample collaborators *)

Definition source_params : Params :=
  {| WORLD_SIZE := 100; VISION_SIZE := 7; REWARD_AMOUNT := 400 |}.

(** A policy without memory that answers [m] to every query. *)
Definition always (m : Z) : Policy unit :=
  {| AI_Bot := λ _, tt;
     choose_action := λ b _ _, (b, m);
     draw_neural_network := λ b _, b |}.

(** Entropy streams: a fixed value, and a progression. *)
Definition constant_entropy (c : Z) : Entropy := λ _, c.
Definition stepping_entropy : Entropy := λ n, Z.of_nat n * 37 + 11.

Definition lone_reward : list (list Z) :=
  <[1%nat := <[1%nat := 1]> (replicate 100 0)]> (replicate 100 (replicate 100 0)).

(** The agent at [(x, y)] on a given grid, before its first round; and at
    its start position [(1, 1)]. *)
Definition standing (x y : Z) (w : list (list Z)) : game (AI_Bot_state := unit) :=
  Game w x y [] [] 0 0 tt O.
Definition at_start (w : list (list Z)) : game (AI_Bot_state := unit) :=
  standing 1 1 w.

(** Closed side conditions are settled by evaluation. *)
Ltac evaluate :=
  first [ reflexivity
        | cbn; lia
        | apply (bool_decide_unpack _); vm_compute; exact I
        | vm_compute; reflexivity ].

(** ** Drawing the world (lines 89-107)

    The drawing block paints on [world_surface], a square of
    [WORLD_SIZE * CELL_SIZE] pixels, by calls of [pygame.draw.rect]; the
    block is modelled by the list of these calls, in the order they are
    made. *)

(** Rendering scale of the script. *)
Class Screen : Type := CELL_SIZE : Z.

(** Colours of the script that the drawing block uses. *)
Definition RED : Z * Z * Z := (255, 0, 0).
Definition GREEN : Z * Z * Z := (0, 255, 0).
Definition BLUE : Z * Z * Z := (0, 0, 255).

(** One call [pygame.draw.rect(world_surface, colour, rect, width)];
    [rect] is (left, top, width, height), and a [width] of [0], the
    default, fills the rectangle. *)
Record rect_call : Type := RectCall {
  colour : Z * Z * Z;
  rect : Z * Z * Z * Z;
  width : Z
}.

(** [np.argwhere(a == 1)]: the indices [(y, x)] of the cells equal to [1],
    row after row. *)
Fixpoint where_row (j : Z) (row : list Z) : list Z :=
  match row with
  | [] => []
  | c :: row' =>
      if bool_decide (c = 1) then j :: where_row (j + 1) row'
      else where_row (j + 1) row'
  end.

Fixpoint where_rows (i : Z) (a : list (list Z)) : list (Z * Z) :=
  match a with
  | [] => []
  | row :: a' => ((λ j, (i, j)) <$> where_row 0 row) ++ where_rows (i + 1) a'
  end.

Definition np_argwhere (a : list (list Z)) : list (Z * Z) := where_rows 0 a.

Section Drawing.

Context {params : Params} {screen : Screen} {AI_Bot_state : Type}.

Implicit Types s : game (AI_Bot_state := AI_Bot_state).

(** Side of [world_surface]. *)
Definition surface_size : Z := WORLD_SIZE * CELL_SIZE.

(** The rectangle of the cell [(y, x)]. *)
Definition cell_rect (y x : Z) : Z * Z * Z * Z :=
  (x * CELL_SIZE, y * CELL_SIZE, CELL_SIZE, CELL_SIZE).

(** [for y, x in reward_positions: pygame.draw.rect(.., GREEN, ..)] *)
Definition reward_positions s : list (Z * Z) := np_argwhere (world s).

Definition draw_rewards s : list rect_call :=
  (λ p, RectCall GREEN (cell_rect p.1 p.2) 0) <$> reward_positions s.

(** [pygame.draw.rect(.., RED, (bot_x * CELL_SIZE, ..))] *)
Definition draw_bot s : rect_call :=
  RectCall RED (cell_rect (bot_y s) (bot_x s)) 0.

(** The two loops over the vision field, [pygame.draw.rect(.., BLUE, .., 1)]. *)
Definition draw_vision_field s : list rect_call :=
  seqZ 0 VISION_SIZE ≫= λ i,
    (λ j, RectCall BLUE (cell_rect (world_y_of s i) (world_x_of s j)) 1)
      <$> seqZ 0 VISION_SIZE.

Definition draw_world s : list rect_call :=
  draw_rewards s ++ [draw_bot s] ++ draw_vision_field s.

(** A rectangle that lies within [world_surface]. *)
Definition on_surface (r : Z * Z * Z * Z) : Prop :=
  0 ≤ r.1.1.1 ∧ 0 ≤ r.1.1.2
  ∧ r.1.1.1 + r.1.2 ≤ surface_size ∧ r.1.1.2 + r.2 ≤ surface_size.

End Drawing.

(** The calls a round makes on [world_surface]: the drawing block runs
    after the movement step, on the variables as that step leaves them. *)
Definition tick_drawing {params : Params} {screen : Screen}
    {AI_Bot_state : Type} {policy : Policy AI_Bot_state} {ent : Entropy}
    (fuel : nat) (s : game) : outcome (list rect_call) :=
  s ← get_vision s;
  s ← check_reward fuel s;
  Done (draw_world (update_position (query_policy s))).

(** The rendering scale of the script. *)
Definition source_screen : Screen := 5.

(** ** Start-up draws and policies for the further properties *)

(** The cells the spawn loop of start-up draws, in the order of the
    draws. *)
Definition drawn_cells {params : Params} {ent : Entropy} : list (Z * Z) :=
  (λ k : nat, (draw_y (2 * k), draw_x (2 * k)))
    <$> seq 0 (Z.to_nat REWARD_AMOUNT).

(** A grid of the script's size with rewards at [(1, 1)] and [(1, 2)]. *)
Definition two_rewards : list (list Z) :=
  <[1%nat := <[2%nat := 1]> (<[1%nat := 1]> (replicate 100 0))]>
    (replicate 100 (replicate 100 0)).

(** * Properties *)

(** ** Outcomes *)

Lemma bind_Done {A B} (m : outcome A) (f : A → outcome B) b :
  m ≫= f = Done b → ∃ a, m = Done a ∧ f a = Done b.
Proof. destruct m as [a| |]; simpl; [eauto | discriminate | discriminate]. Qed.

Lemma for_each_app {A St} (l1 l2 : list A) (body : A → St → outcome St) s :
  for_each (l1 ++ l2) body s = for_each l1 body s ≫= for_each l2 body.
Proof.
  revert s. induction l1 as [|x l1 IH]; intros s; simpl; [done|].
  destruct (body x s) as [s'| |]; simpl; auto.
Qed.

Lemma for_each_snoc {A St} (l : list A) x (body : A → St → outcome St) s :
  for_each (l ++ [x]) body s = for_each l body s ≫= body x.
Proof.
  rewrite for_each_app. destruct (for_each l body s) as [s'| |]; simpl; auto.
  destruct (body x s'); done.
Qed.

(** A property kept by every round of a loop is kept by the loop. *)
Lemma for_each_preserves {A St} (I : St → Prop) (l : list A)
    (body : A → St → outcome St) :
  (∀ x s s', I s → body x s = Done s' → I s') →
  ∀ s s', I s → for_each l body s = Done s' → I s'.
Proof.
  intros Hbody. induction l as [|x l IH]; intros s s' Hs; simpl.
  - intros [= <-]. done.
  - intros (s1 & H1 & H2)%bind_Done. eauto.
Qed.

(** ** Arrays *)

Lemma np_index_in_range len i :
  0 ≤ i < Z.of_nat len → np_index len i = Done (Z.to_nat i).
Proof. intros Hi. unfold np_index. by rewrite bool_decide_eq_true_2. Qed.

Lemma np_index_Done len i k : np_index len i = Done k → (k < len)%nat.
Proof.
  unfold np_index. repeat case_bool_decide; intros [= <-]; lia.
Qed.

Lemma row_rewards_insert (row : list Z) j old v :
  row !! j = Some old →
  (row_rewards (<[j := v]> row) + is_reward old = row_rewards row + is_reward v)%nat.
Proof.
  unfold row_rewards, is_reward. revert j.
  induction row as [|c row IH]; intros [|j]; simpl; try done.
  - intros [= ->]. rewrite !filter_cons.
    repeat case_decide; repeat case_bool_decide; simpl; lia.
  - intros Hj. specialize (IH _ Hj). rewrite !filter_cons.
    destruct (decide (c = 1)); simpl in *; lia.
Qed.

Lemma reward_count_insert (a : list (list Z)) i row row' :
  a !! i = Some row →
  (reward_count (<[i := row']> a) + row_rewards row
   = reward_count a + row_rewards row')%nat.
Proof.
  unfold reward_count. revert i.
  induction a as [|r a IH]; intros [|i]; simpl; try done.
  - intros [= ->]. lia.
  - intros Hi. specialize (IH _ Hi). lia.
Qed.

(** Reading a cell and then writing it moves the count by the difference
    of the two values, whatever the (valid) index. *)
Lemma np_set_reward_count a r c old v a' :
  np_get a r c = Done old → np_set a r c v = Done a' →
  (reward_count a' + is_reward old = reward_count a + is_reward v)%nat.
Proof.
  unfold np_get, np_set.
  intros (i & -> & Hg)%bind_Done. simpl.
  destruct (a !! i) as [row|] eqn:Hrow; [|done].
  apply bind_Done in Hg as (j & -> & Hg). simpl.
  destruct (row !! j) as [x|] eqn:Hx; [|done].
  injection Hg as ->. intros [= <-].
  pose proof (reward_count_insert a i row (<[j := v]> row) Hrow).
  pose proof (row_rewards_insert row j old v Hx). lia.
Qed.

Lemma shape_lookup n m a i row :
  shape n m a → a !! i = Some row → Z.of_nat (length row) = m.
Proof. intros [_ Hrows] Hi. by eapply (Forall_lookup_1 _ a i row) in Hrows. Qed.

Lemma shape_row n m a r :
  shape n m a → 0 ≤ r < n →
  ∃ row, a !! Z.to_nat r = Some row ∧ Z.of_nat (length row) = m.
Proof.
  intros Ha Hr. destruct (lookup_lt_is_Some_2 a (Z.to_nat r)) as [row Hrow].
  { destruct Ha as [Hlen _]. lia. }
  exists row. split; [done|]. by eapply shape_lookup.
Qed.

Lemma np_zeros_shape n m : 0 ≤ n → 0 ≤ m → shape n m (np_zeros n m).
Proof.
  intros Hn Hm. unfold shape, np_zeros. rewrite length_replicate. split; [lia|].
  apply Forall_replicate. rewrite length_replicate. lia.
Qed.

(** In range, reading and writing are the list operations. *)
Lemma np_get_in_range n m a r c :
  shape n m a → 0 ≤ r < n → 0 ≤ c < m →
  ∃ row v, a !! Z.to_nat r = Some row ∧ row !! Z.to_nat c = Some v
           ∧ np_get a r c = Done v.
Proof.
  intros Ha Hr Hc. destruct (shape_row n m a r Ha Hr) as (row & Hrow & Hlen).
  destruct (lookup_lt_is_Some_2 row (Z.to_nat c)) as [v Hv]; [lia|].
  exists row, v. split_and!; try done.
  unfold np_get. rewrite np_index_in_range by (destruct Ha; lia). simpl.
  rewrite Hrow. rewrite np_index_in_range by lia. simpl. by rewrite Hv.
Qed.

Lemma np_set_in_range n m a r c v :
  shape n m a → 0 ≤ r < n → 0 ≤ c < m →
  ∃ row, a !! Z.to_nat r = Some row
         ∧ np_set a r c v = Done (<[Z.to_nat r := <[Z.to_nat c := v]> row]> a).
Proof.
  intros Ha Hr Hc. destruct (shape_row n m a r Ha Hr) as (row & Hrow & Hlen).
  exists row. split; [done|].
  unfold np_set. rewrite np_index_in_range by (destruct Ha; lia). simpl.
  rewrite Hrow. by rewrite np_index_in_range by lia.
Qed.

Lemma np_get_total n m a r c :
  shape n m a → 0 ≤ r < n → 0 ≤ c < m → ∃ v, np_get a r c = Done v.
Proof.
  intros Ha Hr Hc.
  destruct (np_get_in_range n m a r c Ha Hr Hc) as (? & v & _ & _ & ?). eauto.
Qed.

Lemma np_set_total n m a r c v :
  shape n m a → 0 ≤ r < n → 0 ≤ c < m → ∃ a', np_set a r c v = Done a'.
Proof.
  intros Ha Hr Hc.
  destruct (np_set_in_range n m a r c v Ha Hr Hc) as (? & _ & ?). eauto.
Qed.

(** Writing a cell keeps the shape. *)
Lemma np_set_shape n m a r c v a' :
  shape n m a → np_set a r c v = Done a' → shape n m a'.
Proof.
  intros [Hlen Hrows]. unfold np_set.
  intros (i & Hi & Hs)%bind_Done.
  destruct (a !! i) as [row|] eqn:Hrow; [|done].
  apply bind_Done in Hs as (j & Hj & [= <-]).
  split; [by rewrite length_insert|].
  apply Forall_insert; [done|]. rewrite length_insert.
  by eapply (Forall_lookup_1 _ a i row) in Hrows.
Qed.

(** A written cell reads back; the other cells are untouched. *)
Lemma np_get_set_eq n m a r c v a' :
  shape n m a → 0 ≤ r < n → 0 ≤ c < m →
  np_set a r c v = Done a' → np_get a' r c = Done v.
Proof.
  intros Ha Hr Hc Hset. pose proof (np_set_shape _ _ _ _ _ _ _ Ha Hset) as Ha'.
  destruct (np_set_in_range n m a r c v Ha Hr Hc) as (row & Hrow & Hset').
  rewrite Hset in Hset'. injection Hset' as ->.
  destruct (np_get_in_range n m _ r c Ha' Hr Hc) as (row' & x & Hrow' & Hx & ->).
  rewrite list_lookup_insert_eq in Hrow' by (by eapply lookup_lt_Some).
  injection Hrow' as <-.
  rewrite list_lookup_insert_eq in Hx; [congruence|].
  pose proof (shape_lookup _ _ _ _ _ Ha Hrow). lia.
Qed.

Lemma np_get_set_ne n m a r c v a' r' c' :
  shape n m a → 0 ≤ r < n → 0 ≤ c < m → 0 ≤ r' < n → 0 ≤ c' < m →
  (r', c') ≠ (r, c) →
  np_set a r c v = Done a' → np_get a' r' c' = np_get a r' c'.
Proof.
  intros Ha Hr Hc Hr' Hc' Hne Hset.
  pose proof (np_set_shape _ _ _ _ _ _ _ Ha Hset) as Ha'.
  destruct (np_set_in_range n m a r c v Ha Hr Hc) as (row & Hrow & Hset').
  rewrite Hset in Hset'. injection Hset' as ->.
  destruct (np_get_in_range n m _ r' c' Ha' Hr' Hc') as (row' & x & Hrow' & Hx & ->).
  destruct (np_get_in_range n m _ r' c' Ha Hr' Hc') as (row0 & x0 & Hrow0 & Hx0 & ->).
  f_equal. destruct (decide (r' = r)) as [->|Hrr].
  - rewrite list_lookup_insert_eq in Hrow' by (by eapply lookup_lt_Some).
    injection Hrow' as <-. assert (row0 = row) as -> by congruence.
    rewrite list_lookup_insert_ne in Hx; [congruence|].
    intros Heq. apply Hne. f_equal. lia.
  - rewrite list_lookup_insert_ne in Hrow' by lia. congruence.
Qed.

(** Reading never returns anything but a cell of the array. *)
Lemma np_get_elem a r c v :
  np_get a r c = Done v → ∃ row, row ∈ a ∧ v ∈ row.
Proof.
  unfold np_get. intros (i & _ & Hg)%bind_Done.
  destruct (a !! i) as [row|] eqn:Hrow; [|done].
  apply bind_Done in Hg as (j & _ & Hg).
  destruct (row !! j) as [x|] eqn:Hx; [|done]. injection Hg as ->.
  exists row. split; eapply list_elem_of_lookup_2; eauto.
Qed.

Lemma np_get_binary a r c v :
  binary a → np_get a r c = Done v → v = 0 ∨ v = 1.
Proof.
  intros Hb (row & Hrow & Hv)%np_get_elem.
  unfold binary in Hb. rewrite Forall_forall in Hb.
  specialize (Hb _ Hrow). rewrite Forall_forall in Hb. auto.
Qed.

Lemma np_get_no_empty a r c v :
  no_empty_cell a → np_get a r c = Done v → v ≠ 0.
Proof.
  intros Hb (row & Hrow & Hv)%np_get_elem.
  unfold no_empty_cell in Hb. rewrite Forall_forall in Hb.
  specialize (Hb _ Hrow). rewrite Forall_forall in Hb. auto.
Qed.

(** Writing [0] or [1] keeps a grid binary. *)
Lemma np_set_binary a r c v a' :
  binary a → v = 0 ∨ v = 1 → np_set a r c v = Done a' → binary a'.
Proof.
  intros Hb Hv. unfold np_set. intros (i & _ & Hs)%bind_Done.
  destruct (a !! i) as [row|] eqn:Hrow; [|done].
  apply bind_Done in Hs as (j & _ & [= <-]).
  apply Forall_insert; [done|]. apply Forall_insert; [|done].
  by eapply (Forall_lookup_1 _ a i row) in Hb.
Qed.

(** Flattening is row-major. *)
Lemma concat_lookup_row (m : nat) (a : list (list Z)) i j row v :
  Forall (λ r, length r = m) a →
  a !! i = Some row → row !! j = Some v →
  concat a !! (i * m + j)%nat = Some v.
Proof.
  intros Ha. revert i. induction Ha as [|r a Hr Ha IH]; intros [|i]; simpl; try done.
  - intros [= ->] Hv. by apply lookup_app_l_Some.
  - intros Hi Hv. rewrite lookup_app_r by lia.
    replace (m + i * m + j - length r)%nat with (i * m + j)%nat by lia. auto.
Qed.

Lemma concat_length_rows (m : nat) (a : list (list Z)) :
  Forall (λ r, length r = m) a → length (concat a) = (length a * m)%nat.
Proof.
  induction 1 as [|r a Hr Ha IH]; simpl; [done|]. rewrite length_app. lia.
Qed.

Lemma shape_nat n m a :
  shape n m a → 0 ≤ m → Forall (λ r, length r = Z.to_nat m) a.
Proof. intros [_ Hrows] Hm. eapply Forall_impl; [done|]. simpl. lia. Qed.

Lemma flatten_length n m a :
  shape n m a → 0 ≤ m → Z.of_nat (length (flatten a)) = n * m.
Proof.
  intros Ha Hm. unfold flatten.
  rewrite (concat_length_rows (Z.to_nat m)) by by eapply shape_nat.
  destruct Ha. lia.
Qed.

Lemma flatten_lookup n m a i j :
  shape n m a → 0 ≤ i < n → 0 ≤ j < m →
  ∃ v, np_get a i j = Done v ∧ flatten a !! Z.to_nat (i * m + j) = Some v.
Proof.
  intros Ha Hi Hj.
  destruct (np_get_in_range n m a i j Ha Hi Hj) as (row & v & Hrow & Hv & Hg).
  exists v. split; [done|]. unfold flatten.
  replace (Z.to_nat (i * m + j)) with (Z.to_nat i * Z.to_nat m + Z.to_nat j)%nat by nia.
  eapply concat_lookup_row; [|done..]. eapply shape_nat; [done|lia].
Qed.

(** ** The game *)

Section Properties.

Context {params : Params} {AI_Bot_state : Type} {policy : Policy AI_Bot_state}
  {ent : Entropy}.

Implicit Types s t : game (AI_Bot_state := AI_Bot_state).

(** *** The generator *)

Lemma randint_world_size s :
  randint 0 (WORLD_SIZE - 1) s
  = (entropy (rng s) mod WORLD_SIZE, set_rng (S (rng s)) s).
Proof. unfold randint. f_equal. rewrite Z.add_0_l. f_equal. lia. Qed.

Lemma draw_x_range c : 0 < WORLD_SIZE → 0 ≤ draw_x c < WORLD_SIZE.
Proof. intros. unfold draw_x. by apply Z.mod_pos_bound. Qed.

Lemma draw_y_range c : 0 < WORLD_SIZE → 0 ≤ draw_y c < WORLD_SIZE.
Proof. intros. unfold draw_y. by apply Z.mod_pos_bound. Qed.

(** *** The respawn search *)

(** One round of the search. *)
Lemma spawn_new_reward_S fuel s :
  spawn_new_reward (S fuel) s
  = c ← np_get (world s) (draw_y (rng s)) (draw_x (rng s));
    if bool_decide (c = 0) then
      w ← np_set (world s) (draw_y (rng s)) (draw_x (rng s)) 1;
      Done (set_world w (set_rng (S (S (rng s))) s))
    else spawn_new_reward fuel (set_rng (S (S (rng s))) s).
Proof.
  cbn [spawn_new_reward]. rewrite randint_world_size.
  rewrite randint_world_size. reflexivity.
Qed.

(** The search stops at the first draw that designates an empty cell, and
    sets that cell. *)
Lemma spawn_new_reward_Done fuel s s' :
  spawn_new_reward fuel s = Done s' →
  ∃ k : nat, (k < fuel)%nat
    ∧ np_get (world s) (draw_y (rng s + 2 * k)) (draw_x (rng s + 2 * k)) = Done 0
    ∧ np_set (world s) (draw_y (rng s + 2 * k)) (draw_x (rng s + 2 * k)) 1
      = Done (world s')
    ∧ s' = set_world (world s') (set_rng (rng s + 2 * k + 2) s)
    ∧ ∀ k' : nat, (k' < k)%nat →
        ∃ v, np_get (world s) (draw_y (rng s + 2 * k')) (draw_x (rng s + 2 * k'))
             = Done v ∧ v ≠ 0.
Proof.
  revert s. induction fuel as [|fuel IH]; intros s; [done|].
  rewrite spawn_new_reward_S. intros (c & Hc & Hrest)%bind_Done.
  case_bool_decide as Hz.
  - subst c. apply bind_Done in Hrest as (w & Hw & [= <-]).
    exists O. rewrite Nat.mul_0_r, Nat.add_0_r. split_and!; try done; try lia.
    unfold set_world, set_rng. simpl. f_equal. lia.
  - apply IH in Hrest as (k & Hk & Hget & Hset & Hs' & Hbefore).
    cbn [world rng set_rng] in Hget, Hset, Hs', Hbefore.
    exists (S k).
    replace (rng s + 2 * S k)%nat with (S (S (rng s)) + 2 * k)%nat by lia.
    split_and!; [lia | done | done | |].
    + rewrite Hs' at 1. reflexivity.
    + intros [|k'] Hk'.
      * rewrite Nat.mul_0_r, Nat.add_0_r. eauto.
      * replace (rng s + 2 * S k')%nat with (S (S (rng s)) + 2 * k')%nat by lia.
        apply Hbefore. lia.
Qed.

(** A search that finishes adds one reward and touches nothing but the
    world and the generator. *)
Lemma spawn_new_reward_count fuel s s' :
  spawn_new_reward fuel s = Done s' →
  reward_count (world s') = S (reward_count (world s)).
Proof.
  intros (k & _ & Hget & Hset & _)%spawn_new_reward_Done.
  pose proof (np_set_reward_count _ _ _ _ _ _ Hget Hset) as Hcount.
  unfold is_reward in Hcount. simpl in Hcount. lia.
Qed.

Lemma spawn_new_reward_shape fuel s s' n m :
  spawn_new_reward fuel s = Done s' → shape n m (world s) → shape n m (world s').
Proof.
  intros (k & _ & _ & Hset & _)%spawn_new_reward_Done Hs.
  by eapply np_set_shape.
Qed.

Lemma spawn_new_reward_binary fuel s s' :
  spawn_new_reward fuel s = Done s' → binary (world s) → binary (world s').
Proof.
  intros (k & _ & _ & Hset & _)%spawn_new_reward_Done Hs.
  eapply np_set_binary; [done| |done]. by right.
Qed.

(** If the [k]-th draw designates an empty cell the search is over after at
    most [k + 1] rounds. *)
Lemma spawn_new_reward_finishes (k : nat) : ∀ fuel s,
  0 < WORLD_SIZE → shape WORLD_SIZE WORLD_SIZE (world s) →
  np_get (world s) (draw_y (rng s + 2 * k)) (draw_x (rng s + 2 * k)) = Done 0 →
  (k < fuel)%nat →
  ∃ s', spawn_new_reward fuel s = Done s'.
Proof.
  induction k as [|k IH]; intros [|fuel] s Hpos Hshape Hhit Hfuel; try lia.
  - rewrite Nat.mul_0_r, Nat.add_0_r in Hhit.
    rewrite spawn_new_reward_S, Hhit. simpl.
    destruct (np_set_total _ _ (world s) (draw_y (rng s)) (draw_x (rng s)) 1
                Hshape (draw_y_range _ Hpos) (draw_x_range _ Hpos)) as [w ->].
    simpl. eauto.
  - rewrite spawn_new_reward_S.
    destruct (np_get_total _ _ (world s) (draw_y (rng s)) (draw_x (rng s))
                Hshape (draw_y_range _ Hpos) (draw_x_range _ Hpos)) as [c ->].
    simpl. case_bool_decide.
    + destruct (np_set_total _ _ (world s) (draw_y (rng s)) (draw_x (rng s)) 1
                Hshape (draw_y_range _ Hpos) (draw_x_range _ Hpos)) as [w ->].
      simpl. eauto.
    + apply IH; [done|done| |lia]. cbn [world rng set_rng].
      by replace (S (S (rng s)) + 2 * k)%nat with (rng s + 2 * S k)%nat by lia.
Qed.

(** On a grid without an empty cell the search never finishes. *)
Lemma spawn_new_reward_no_empty_cell fuel s s' :
  no_empty_cell (world s) → spawn_new_reward fuel s ≠ Done s'.
Proof.
  intros Hfull (k & _ & Hget & _)%spawn_new_reward_Done.
  by eapply np_get_no_empty in Hget.
Qed.


(** *** Reward at the current position *)

Lemma check_reward_no_reward fuel s v :
  np_get (world s) (bot_y s) (bot_x s) = Done v → v ≠ 1 →
  check_reward fuel s = Done (set_reward 0 s).
Proof.
  intros Hv Hne. unfold check_reward. rewrite Hv. simpl.
  by rewrite bool_decide_eq_false_2.
Qed.

Lemma check_reward_collect fuel s :
  np_get (world s) (bot_y s) (bot_x s) = Done 1 →
  check_reward fuel s
  = w ← np_set (world s) (bot_y s) (bot_x s) 0;
    spawn_new_reward fuel (set_world w (set_reward 1 s)).
Proof. intros Hv. unfold check_reward. rewrite Hv. reflexivity. Qed.

(** The two ways through the block. *)
Lemma check_reward_Done fuel s s' :
  check_reward fuel s = Done s' →
  (∃ v, np_get (world s) (bot_y s) (bot_x s) = Done v ∧ v ≠ 1
        ∧ s' = set_reward 0 s)
  ∨ (np_get (world s) (bot_y s) (bot_x s) = Done 1
     ∧ ∃ w, np_set (world s) (bot_y s) (bot_x s) 0 = Done w
            ∧ spawn_new_reward fuel (set_world w (set_reward 1 s)) = Done s').
Proof.
  unfold check_reward. intros (v & Hv & Hrest)%bind_Done.
  cbn [reward set_reward] in Hrest. case_bool_decide as Hr.
  - subst v. right. split; [done|].
    apply bind_Done in Hrest as (w & Hw & Hspawn). eauto.
  - left. injection Hrest as <-. eauto.
Qed.

Lemma check_reward_count fuel s s' :
  check_reward fuel s = Done s' →
  reward_count (world s') = reward_count (world s).
Proof.
  intros [(v & _ & _ & ->)|(Hget & w & Hset & Hspawn)]%check_reward_Done; [done|].
  apply spawn_new_reward_count in Hspawn. cbn [world set_world] in Hspawn.
  pose proof (np_set_reward_count _ _ _ _ _ _ Hget Hset) as Hcount.
  unfold is_reward in Hcount. simpl in Hcount. lia.
Qed.

(** *** Vision *)

(** The vision block writes [vision] and [vision_flat] and nothing else. *)
Lemma look_frame i j s s' : look i j s = Done s' → ∃ v, s' = set_vision v s.
Proof.
  unfold look. intros (c & _ & (v & _ & [= <-])%bind_Done)%bind_Done. eauto.
Qed.

Lemma get_vision_frame s s' :
  get_vision s = Done s' →
  ∃ v, s' = set_vision_flat (flatten v) (set_vision v s).
Proof.
  unfold get_vision. intros (s1 & Hloop & [= <-])%bind_Done.
  assert (∃ v, s1 = set_vision v s) as [v Hv].
  { revert Hloop.
    apply (for_each_preserves (λ s', ∃ v, s' = set_vision v s)); [|by eexists].
    intros i s2 s3 Hs2.
    apply (for_each_preserves (λ s', ∃ v, s' = set_vision v s)); [|done].
    intros j s4 s5 [v ->] [v' ->]%look_frame. by exists v'. }
  subst s1. by exists v.
Qed.

(** One cell of the window. *)
Lemma look_Done i j s :
  0 < WORLD_SIZE → shape WORLD_SIZE WORLD_SIZE (world s) →
  shape VISION_SIZE VISION_SIZE (vision s) →
  0 ≤ i < VISION_SIZE → 0 ≤ j < VISION_SIZE →
  ∃ c v, np_get (world s) (world_y_of s i) (world_x_of s j) = Done c
         ∧ np_set (vision s) i j c = Done v
         ∧ look i j s = Done (set_vision v s).
Proof.
  intros Hpos Hw Hv Hi Hj.
  destruct (np_get_total _ _ (world s) (world_y_of s i) (world_x_of s j) Hw)
    as [c Hc]; [by apply Z.mod_pos_bound..|].
  destruct (np_set_total _ _ (vision s) i j c Hv Hi Hj) as [v Hset].
  exists c, v. split_and!; [done..|]. unfold look. rewrite Hc. simpl.
  by rewrite Hset.
Qed.

(** The inner loop, after [n] cells of row [i]. *)
Lemma vision_row_Done i s (n : nat) :
  0 < WORLD_SIZE → shape WORLD_SIZE WORLD_SIZE (world s) →
  shape VISION_SIZE VISION_SIZE (vision s) →
  0 ≤ i < VISION_SIZE → Z.of_nat n ≤ VISION_SIZE →
  ∃ v, for_each (seqZ 0 (Z.of_nat n)) (λ j, look i j) s = Done (set_vision v s)
    ∧ shape VISION_SIZE VISION_SIZE v
    ∧ (∀ j, 0 ≤ j < Z.of_nat n →
         np_get v i j = np_get (world s) (world_y_of s i) (world_x_of s j))
    ∧ (∀ i' j, 0 ≤ i' < VISION_SIZE → 0 ≤ j < VISION_SIZE → i' ≠ i →
         np_get v i' j = np_get (vision s) i' j).
Proof.
  intros Hpos Hw Hv Hi. induction n as [|n IH]; intros Hn.
  - exists (vision s). split_and!; [by destruct s|done|intros; lia|done].
  - destruct IH as (v & Hloop & Hshape & Hrow & Hrest); [lia|].
    rewrite seqZ_S, for_each_snoc, Hloop. simpl. rewrite Z.add_0_l.
    destruct (look_Done i (Z.of_nat n) (set_vision v s)) as (c & v' & Hc & Hset & ->);
      [done..|lia|].
    cbn [world vision set_vision] in Hc, Hset.
    exists v'. split_and!.
    + done.
    + by eapply np_set_shape.
    + intros j Hj. destruct (decide (j = Z.of_nat n)) as [->|Hne].
      * rewrite (np_get_set_eq VISION_SIZE VISION_SIZE v i (Z.of_nat n) c v')
          by first [done | lia].
        done.
      * rewrite (np_get_set_ne VISION_SIZE VISION_SIZE v i (Z.of_nat n) c v' i j)
          by first [done | lia | congruence].
        apply Hrow. lia.
    + intros i' j Hi' Hj Hne.
      rewrite (np_get_set_ne VISION_SIZE VISION_SIZE v i (Z.of_nat n) c v' i' j)
        by first [done | lia | congruence].
      by apply Hrest.
Qed.

(** The outer loop, after [n] rows. *)
Lemma vision_rows_Done s (n : nat) :
  0 < WORLD_SIZE → 0 ≤ VISION_SIZE → shape WORLD_SIZE WORLD_SIZE (world s) →
  shape VISION_SIZE VISION_SIZE (vision s) →
  Z.of_nat n ≤ VISION_SIZE →
  ∃ v, for_each (seqZ 0 (Z.of_nat n))
         (λ i, for_each (seqZ 0 VISION_SIZE) (λ j, look i j)) s
       = Done (set_vision v s)
    ∧ shape VISION_SIZE VISION_SIZE v
    ∧ ∀ i j, 0 ≤ i < Z.of_nat n → 0 ≤ j < VISION_SIZE →
        np_get v i j = np_get (world s) (world_y_of s i) (world_x_of s j).
Proof.
  intros Hpos Hvs Hw Hv. induction n as [|n IH]; intros Hn.
  - exists (vision s). split_and!; [by destruct s|done|intros; lia].
  - destruct IH as (v & Hloop & Hshape & Hdone); [lia|].
    rewrite seqZ_S, for_each_snoc, Hloop. simpl. rewrite Z.add_0_l.
    destruct (vision_row_Done (Z.of_nat n) (set_vision v s) (Z.to_nat VISION_SIZE))
      as (v' & Hrow & Hshape' & Hnew & Hold); [done..|lia|lia|].
    rewrite Z2Nat.id in Hrow, Hnew by done. rewrite Hrow.
    cbn [vision set_vision] in Hold.
    exists v'. split_and!; [done..|].
    intros i j Hi Hj. destruct (decide (i = Z.of_nat n)) as [->|Hne].
    + by rewrite Hnew.
    + rewrite Hold by lia. apply Hdone; lia.
Qed.

(** The whole block: it always completes, leaves everything but [vision]
    and [vision_flat] as it was, and fills the window from the world. *)
Lemma get_vision_Done s :
  0 < WORLD_SIZE → 0 ≤ VISION_SIZE → shape WORLD_SIZE WORLD_SIZE (world s) →
  ∃ v, get_vision s = Done (set_vision_flat (flatten v) (set_vision v s))
    ∧ shape VISION_SIZE VISION_SIZE v
    ∧ ∀ i j, 0 ≤ i < VISION_SIZE → 0 ≤ j < VISION_SIZE →
        np_get v i j = np_get (world s) (world_y_of s i) (world_x_of s j).
Proof.
  intros Hpos Hvs Hw.
  destruct (vision_rows_Done (set_vision (np_zeros VISION_SIZE VISION_SIZE) s)
              (Z.to_nat VISION_SIZE)) as (v & Hloop & Hshape & Hcells);
    [done..| by apply np_zeros_shape | lia |].
  rewrite Z2Nat.id in Hloop, Hcells by done.
  exists v. split_and!; [|done..]. unfold get_vision. by rewrite Hloop.
Qed.

(** The window cell [(i, j)] is read through the toroidal addressing, at
    the offset [(j, i)] from the top-left corner of the window. *)
Lemma look_read s i j :
  np_get (world s) (world_y_of s i) (world_x_of s j)
  = read (world s) (bot_x s - BOT_VISION_RANGE + j) (bot_y s - BOT_VISION_RANGE + i).
Proof. reflexivity. Qed.

Lemma read_in_range (w : list (list Z)) x y :
  0 ≤ x < WORLD_SIZE → 0 ≤ y < WORLD_SIZE → read w x y = np_get w y x.
Proof. intros Hx Hy. unfold read. by rewrite !Z.mod_small. Qed.

Lemma read_total (w : list (list Z)) x y :
  0 < WORLD_SIZE → shape WORLD_SIZE WORLD_SIZE w → ∃ c, read w x y = Done c.
Proof.
  intros Hpos Hw. unfold read.
  eapply np_get_total; [done|by apply Z.mod_pos_bound..].
Qed.

(** *** One round *)

(** The reward block leaves the agent, the window and the policy alone. *)
Lemma check_reward_frame fuel s s' :
  check_reward fuel s = Done s' →
  s' = set_world (world s') (set_rng (rng s') (set_reward (reward s') s)).
Proof.
  intros [(v & _ & _ & ->)|(_ & w & _ & Hspawn)]%check_reward_Done.
  - by destruct s.
  - apply spawn_new_reward_Done in Hspawn as (k & _ & _ & _ & Hs' & _).
    destruct s, s'. unfold set_world, set_rng, set_reward in *.
    cbn [world rng reward bot_x bot_y vision vision_flat movement ai_bot] in *.
    congruence.
Qed.

Lemma check_reward_signal fuel s s' :
  check_reward fuel s = Done s' →
  ∃ c, np_get (world s) (bot_y s) (bot_x s) = Done c
       ∧ reward s' = if bool_decide (c = 1) then 1 else 0.
Proof.
  intros [(v & Hv & Hne & ->)|(Hget & w & _ & Hspawn)]%check_reward_Done.
  - exists v. split; [done|]. by rewrite bool_decide_eq_false_2.
  - exists 1. split; [done|].
    apply spawn_new_reward_Done in Hspawn as (k & _ & _ & _ & -> & _). done.
Qed.

Lemma check_reward_shape fuel s s' n m :
  check_reward fuel s = Done s' → shape n m (world s) → shape n m (world s').
Proof.
  intros [(v & _ & _ & ->)|(_ & w & Hset & Hspawn)]%check_reward_Done Hs; [done|].
  eapply spawn_new_reward_shape; [done|]. by eapply np_set_shape.
Qed.

Lemma check_reward_binary fuel s s' :
  check_reward fuel s = Done s' → binary (world s) → binary (world s').
Proof.
  intros [(v & _ & _ & ->)|(_ & w & Hset & Hspawn)]%check_reward_Done Hs; [done|].
  eapply spawn_new_reward_binary; [done|].
  eapply np_set_binary; [done| |done]. by left.
Qed.

(** The movement step only writes the position, and keeps it on the grid. *)
Lemma update_position_frame s :
  update_position s = set_bot_x (bot_x (update_position s))
                        (set_bot_y (bot_y (update_position s)) s).
Proof. unfold update_position. repeat case_bool_decide; by destruct s. Qed.

Lemma update_position_range s :
  0 < WORLD_SIZE →
  0 ≤ bot_x s < WORLD_SIZE → 0 ≤ bot_y s < WORLD_SIZE →
  0 ≤ bot_x (update_position s) < WORLD_SIZE
  ∧ 0 ≤ bot_y (update_position s) < WORLD_SIZE.
Proof.
  intros Hpos Hx Hy. unfold update_position.
  repeat case_bool_decide; simpl; split; try done; by apply Z.mod_pos_bound.
Qed.

Lemma update_position_unrecognized s :
  movement s ≠ 0 → movement s ≠ 1 → movement s ≠ 2 → movement s ≠ 3 →
  update_position s = s.
Proof.
  intros. unfold update_position. by rewrite !bool_decide_eq_false_2.
Qed.

(** The three stages of a round that completes. *)
Lemma tick_Done fuel s s' :
  tick fuel s = Done s' →
  ∃ s1 s2, get_vision s = Done s1 ∧ check_reward fuel s1 = Done s2
           ∧ s' = draw (update_position (query_policy s2)).
Proof.
  unfold tick. intros (s1 & H1 & (s2 & H2 & [= <-])%bind_Done)%bind_Done. eauto.
Qed.

Lemma tick_stages fuel s s1 s2 :
  get_vision s = Done s1 → check_reward fuel s1 = Done s2 →
  tick fuel s = Done (draw (update_position (query_policy s2))).
Proof. intros H1 H2. unfold tick. rewrite H1. simpl. by rewrite H2. Qed.

Lemma query_policy_fields s :
  world (query_policy s) = world s ∧ bot_x (query_policy s) = bot_x s
  ∧ bot_y (query_policy s) = bot_y s ∧ reward (query_policy s) = reward s
  ∧ vision (query_policy s) = vision s
  ∧ vision_flat (query_policy s) = vision_flat s
  ∧ rng (query_policy s) = rng s
  ∧ movement (query_policy s)
    = (choose_action (ai_bot s) (vision_flat s) (reward s)).2
  ∧ ai_bot (query_policy s)
    = (choose_action (ai_bot s) (vision_flat s) (reward s)).1.
Proof.
  unfold query_policy.
  by destruct (choose_action (ai_bot s) (vision_flat s) (reward s)).
Qed.

Lemma update_position_fields s :
  world (update_position s) = world s ∧ reward (update_position s) = reward s
  ∧ vision (update_position s) = vision s
  ∧ vision_flat (update_position s) = vision_flat s
  ∧ rng (update_position s) = rng s
  ∧ movement (update_position s) = movement s
  ∧ ai_bot (update_position s) = ai_bot s.
Proof. unfold update_position. by repeat case_bool_decide. Qed.

Lemma tick_world fuel s s' :
  tick fuel s = Done s' →
  ∃ s1 s2, get_vision s = Done s1 ∧ world s1 = world s
           ∧ check_reward fuel s1 = Done s2 ∧ world s' = world s2.
Proof.
  intros (s1 & s2 & H1 & H2 & ->)%tick_Done. exists s1, s2.
  apply get_vision_frame in H1 as Hf. destruct Hf as [v ->].
  split_and!; [done..|]. cbn [draw world set_ai_bot].
  destruct (update_position_fields (query_policy s2)) as [-> _].
  by destruct (query_policy_fields s2) as [-> _].
Qed.

Lemma tick_count fuel s s' :
  tick fuel s = Done s' → reward_count (world s') = reward_count (world s).
Proof.
  intros (s1 & s2 & _ & Hw & H2 & ->)%tick_world.
  apply check_reward_count in H2. congruence.
Qed.

Lemma run_count fuel n : ∀ s s',
  run fuel n s = Done s' → reward_count (world s') = reward_count (world s).
Proof.
  induction n as [|n IH]; intros s s'; simpl.
  - by intros [= <-].
  - intros (s1 & H1 & Hrest)%bind_Done.
    apply tick_count in H1. apply IH in Hrest. congruence.
Qed.

(** A round keeps the state well formed. *)
Lemma tick_ok fuel s s' :
  0 < WORLD_SIZE → game_ok s → tick fuel s = Done s' → game_ok s'.
Proof.
  intros Hpos (Hshape & Hx & Hy) (s1 & s2 & H1 & H2 & ->)%tick_Done.
  apply get_vision_frame in H1 as [v ->].
  pose proof (check_reward_shape _ _ _ _ _ H2 Hshape) as Hshape2.
  apply check_reward_frame in H2.
  assert (bot_x s2 = bot_x s ∧ bot_y s2 = bot_y s) as [Hx2 Hy2]
    by (by rewrite H2).
  destruct (query_policy_fields s2) as (Hw & Hqx & Hqy & _).
  destruct (update_position_fields (query_policy s2)) as (Hw' & _).
  destruct (update_position_range (query_policy s2) Hpos) as [Hx' Hy'];
    [congruence..|].
  unfold game_ok. cbn [draw world bot_x bot_y set_ai_bot].
  rewrite Hw', Hw. done.
Qed.

Lemma run_ok fuel n : ∀ s s',
  0 < WORLD_SIZE → game_ok s → run fuel n s = Done s' → game_ok s'.
Proof.
  induction n as [|n IH]; intros s s' Hpos Hs; simpl.
  - by intros [= <-].
  - intros (s1 & H1 & Hrest)%bind_Done. eauto using tick_ok.
Qed.

(** *** Start-up *)

Lemma spawn_reward_eq s :
  spawn_reward s
  = w ← np_set (world s) (draw_y (rng s)) (draw_x (rng s)) 1;
    Done (set_world w (set_rng (S (S (rng s))) s)).
Proof.
  unfold spawn_reward. rewrite randint_world_size.
  rewrite randint_world_size. reflexivity.
Qed.

Lemma np_zeros_get n m r c v : np_get (np_zeros n m) r c = Done v → v = 0.
Proof.
  intros (row & Hrow & Hv)%np_get_elem. unfold np_zeros in Hrow.
  apply elem_of_replicate in Hrow as [-> _].
  by apply elem_of_replicate in Hv as [-> _].
Qed.

Lemma np_zeros_binary n m : binary (np_zeros n m).
Proof. apply Forall_replicate, Forall_replicate. by left. Qed.

Lemma row_rewards_zeros (j : nat) : row_rewards (replicate j 0) = O.
Proof.
  unfold row_rewards. induction j as [|j IH]; simpl; [done|].
  rewrite filter_cons. by case_decide.
Qed.

Lemma np_zeros_count n m : reward_count (np_zeros n m) = O.
Proof.
  unfold reward_count, np_zeros.
  induction (Z.to_nat n) as [|k IH]; simpl; [done|].
  by rewrite IH, row_rewards_zeros.
Qed.

(** The spawn loop after [n] rounds: the cells drawn so far, and only
    those, hold a reward; a draw that repeats an earlier one adds none. *)
Lemma init_rounds (n : nat) :
  0 < WORLD_SIZE →
  ∃ s, for_each (seqZ 0 (Z.of_nat n)) (λ _, spawn_reward) blank = Done s
    ∧ s = set_world (world s) (set_rng (2 * n) blank)
    ∧ shape WORLD_SIZE WORLD_SIZE (world s)
    ∧ binary (world s)
    ∧ (reward_count (world s) ≤ n)%nat
    ∧ (∀ k : nat, (k < n)%nat →
         np_get (world s) (draw_y (2 * k)) (draw_x (2 * k)) = Done 1)
    ∧ (∀ r c, 0 ≤ r < WORLD_SIZE → 0 ≤ c < WORLD_SIZE →
         np_get (world s) r c = Done 1 →
         ∃ k : nat, (k < n)%nat ∧ r = draw_y (2 * k) ∧ c = draw_x (2 * k))
    ∧ (∀ k k' : nat, (k < k' < n)%nat →
         draw_y (2 * k) = draw_y (2 * k') → draw_x (2 * k) = draw_x (2 * k') →
         (reward_count (world s) < n)%nat).
Proof.
  intros Hpos. induction n as [|n IH].
  - exists blank. split_and!; try done.
    + apply np_zeros_shape; lia.
    + apply np_zeros_binary.
    + cbn [blank world]. rewrite np_zeros_count. lia.
    + intros; lia.
    + intros r c _ _ Hget. by apply np_zeros_get in Hget.
    + intros; lia.
  - destruct IH as (s & Hloop & Hs & Hshape & Hbin & Hcount & Hdrawn & Honly & Hdup).
    rewrite seqZ_S, for_each_snoc, Hloop. cbn [mbind outcome_bind].
    rewrite spawn_reward_eq.
    assert (rng s = (2 * n)%nat) as Hrng by (by rewrite Hs).
    rewrite Hrng.
    pose proof (draw_y_range (2 * n) Hpos) as Hy.
    pose proof (draw_x_range (2 * n) Hpos) as Hx.
    destruct (np_get_total _ _ (world s) _ _ Hshape Hy Hx) as [old Hold].
    destruct (np_set_total _ _ (world s) _ _ 1 Hshape Hy Hx) as [w Hset].
    rewrite Hset. cbn [mbind outcome_bind].
    pose proof (np_set_reward_count _ _ _ _ _ _ Hold Hset) as Hcnt.
    assert (is_reward 1 = 1%nat) as Hone by done. rewrite Hone in Hcnt.
    assert (is_reward old ≤ 1)%nat as Hle
      by (unfold is_reward; case_bool_decide; lia).
    eexists. split; [done|]. cbn [world set_world].
    split_and!.
    + rewrite Hs. unfold set_world, set_rng, blank. simpl. f_equal. lia.
    + by eapply np_set_shape.
    + eapply np_set_binary; [done| |done]. by right.
    + lia.
    + intros k Hk.
      destruct (decide ((draw_y (2 * k), draw_x (2 * k))
                        = (draw_y (2 * n), draw_x (2 * n)))) as [Heq|Hne].
      * assert (draw_y (2 * k) = draw_y (2 * n)) as -> by congruence.
        assert (draw_x (2 * k) = draw_x (2 * n)) as -> by congruence.
        by eapply np_get_set_eq.
      * rewrite (np_get_set_ne _ _ _ _ _ _ _ _ _ Hshape Hy Hx
                   (draw_y_range _ Hpos) (draw_x_range _ Hpos) Hne Hset).
        apply Hdrawn. destruct (decide (k = n)) as [->|]; [done|lia].
    + intros r c Hr Hc Hget.
      destruct (decide ((r, c) = (draw_y (2 * n), draw_x (2 * n)))) as [[= -> ->]|Hne].
      * exists n. split_and!; [lia|done..].
      * rewrite (np_get_set_ne _ _ _ _ _ _ _ _ _ Hshape Hy Hx Hr Hc Hne Hset)
          in Hget.
        destruct (Honly r c Hr Hc Hget) as (k & Hk & ? & ?).
        exists k. split_and!; [lia|done..].
    + intros k k' Hk Hky Hkx. destruct (decide (k' = n)) as [->|Hk'].
      * rewrite <- Hky, <- Hkx, Hdrawn in Hold by lia. injection Hold as <-.
        unfold is_reward in Hcnt. simpl in Hcnt. lia.
      * assert (reward_count (world s) < n)%nat; [|lia].
        apply (Hdup k k'); [lia|done..].
Qed.

(** *** Toroidal addressing and the vision window *)

(** C7.  Toroidal addressing is periodic: for every grid, all integer
    coordinates [x], [y] and every integer [k], reading at
    [(x + k * WORLD_SIZE, y)] gives what reading at [(x, y)] gives, and the
    same holds for [y].  The window of the agent is read through this
    addressing, so it does not depend on which representative of its
    position modulo [WORLD_SIZE] the agent carries. *)
Theorem toroidal_periodicity (w : list (list Z)) (x y k : Z) :
  read w (x + k * WORLD_SIZE) y = read w x y
  ∧ read w x (y + k * WORLD_SIZE) = read w x y
  ∧ ∀ s i j,
      np_get (world s) (world_y_of (set_bot_y (bot_y s + k * WORLD_SIZE) s) i)
                       (world_x_of (set_bot_x (bot_x s + k * WORLD_SIZE) s) j)
      = np_get (world s) (world_y_of s i) (world_x_of s j).
Proof.
  assert (∀ a, (a + k * WORLD_SIZE) mod WORLD_SIZE = a mod WORLD_SIZE) as Hmod.
  { intros a. apply Z_mod_plus_full. }
  unfold read. split_and!.
  - by rewrite Hmod.
  - by rewrite Hmod.
  - intros s i j. unfold world_y_of, world_x_of. cbn [bot_x bot_y set_bot_x set_bot_y].
    replace (bot_y s + k * WORLD_SIZE - BOT_VISION_RANGE + i)
      with (bot_y s - BOT_VISION_RANGE + i + k * WORLD_SIZE) by lia.
    replace (bot_x s + k * WORLD_SIZE - BOT_VISION_RANGE + j)
      with (bot_x s - BOT_VISION_RANGE + j + k * WORLD_SIZE) by lia.
    by rewrite !Hmod.
Qed.

(** C6.  Vision extraction: on a world of the right shape the vision block
    completes; cell [(i, j)] of the extracted window is the world cell at
    the toroidally reduced coordinates
    [(bot_y - half + i, bot_x - half + j)], [half = VISION_SIZE // 2]; for an
    odd window size the centre cell [(half, half)] is the world cell at the
    position of the agent; the block changes neither the world nor the
    position of the agent (it writes [vision] and [vision_flat] only). *)
Theorem vision_extraction s :
  0 < WORLD_SIZE → 0 ≤ VISION_SIZE → shape WORLD_SIZE WORLD_SIZE (world s) →
  ∃ s', get_vision s = Done s'
    ∧ s' = set_vision_flat (vision_flat s') (set_vision (vision s') s)
    ∧ world s' = world s ∧ bot_x s' = bot_x s ∧ bot_y s' = bot_y s
    ∧ shape VISION_SIZE VISION_SIZE (vision s')
    ∧ (∀ i j, 0 ≤ i < VISION_SIZE → 0 ≤ j < VISION_SIZE →
         ∃ c, np_get (vision s') i j = Done c
              ∧ read (world s) (bot_x s - VISION_SIZE / 2 + j)
                               (bot_y s - VISION_SIZE / 2 + i) = Done c)
    ∧ (Z.odd VISION_SIZE = true →
         np_get (vision s') (VISION_SIZE / 2) (VISION_SIZE / 2)
         = read (world s) (bot_x s) (bot_y s)
         ∧ (0 ≤ bot_x s < WORLD_SIZE → 0 ≤ bot_y s < WORLD_SIZE →
            np_get (vision s') (VISION_SIZE / 2) (VISION_SIZE / 2)
            = np_get (world s) (bot_y s) (bot_x s))).
Proof.
  intros Hpos Hvs Hw.
  destruct (get_vision_Done s Hpos Hvs Hw) as (v & Hget & Hshape & Hcells).
  eexists. split; [exact Hget|].
  cbn [world bot_x bot_y vision vision_flat set_vision set_vision_flat].
  split_and!; try done.
  - intros i j Hi Hj. rewrite (Hcells i j Hi Hj), look_read.
    destruct (read_total (world s) (bot_x s - BOT_VISION_RANGE + j)
                (bot_y s - BOT_VISION_RANGE + i) Hpos Hw) as [c Hc].
    by exists c.
  - intros Hodd.
    assert (0 ≤ VISION_SIZE / 2 < VISION_SIZE) as Hhalf.
    { assert (VISION_SIZE ≠ 0) by (by intros Heq; rewrite Heq in Hodd).
      split; [by apply Z.div_pos|]. apply Z.div_lt; lia. }
    assert (np_get v (VISION_SIZE / 2) (VISION_SIZE / 2)
            = read (world s) (bot_x s) (bot_y s)) as Hcentre.
    { rewrite (Hcells _ _ Hhalf Hhalf), look_read. unfold BOT_VISION_RANGE.
      f_equal; lia. }
    split; [done|]. intros Hx Hy. by rewrite Hcentre, read_in_range.
Qed.

(** C10.  The observation handed to the policy: the vision block leaves in
    [vision_flat] a sequence of exactly [VISION_SIZE * VISION_SIZE] entries,
    the row-major flattening of the window (entry [i * VISION_SIZE + j] is
    window cell [(i, j)]), each entry being the state of the world cell
    under it, [0] or [1] on a binary world; and that sequence is the first
    argument of the [choose_action] call of the round. *)
Theorem observation_flattening s :
  0 < WORLD_SIZE → 0 ≤ VISION_SIZE → shape WORLD_SIZE WORLD_SIZE (world s) →
  ∃ s1, get_vision s = Done s1
    ∧ Z.of_nat (length (vision_flat s1)) = VISION_SIZE * VISION_SIZE
    ∧ (∀ i j, 0 ≤ i < VISION_SIZE → 0 ≤ j < VISION_SIZE →
         ∃ c, vision_flat s1 !! Z.to_nat (i * VISION_SIZE + j) = Some c
              ∧ np_get (vision s1) i j = Done c
              ∧ np_get (world s) (world_y_of s i) (world_x_of s j) = Done c
              ∧ (binary (world s) → c = 0 ∨ c = 1))
    ∧ (∀ fuel s', tick fuel s = Done s' →
         ∃ s2, check_reward fuel s1 = Done s2
           ∧ vision_flat s2 = vision_flat s1
           ∧ movement s'
             = (choose_action (ai_bot s) (vision_flat s1) (reward s2)).2
           ∧ vision_flat s' = vision_flat s1).
Proof.
  intros Hpos Hvs Hw.
  destruct (get_vision_Done s Hpos Hvs Hw) as (v & Hget & Hshape & Hcells).
  eexists. split; [exact Hget|].
  cbn [world bot_x bot_y vision vision_flat set_vision set_vision_flat].
  split_and!.
  - by apply flatten_length.
  - intros i j Hi Hj.
    destruct (flatten_lookup _ _ v i j Hshape Hi Hj) as (c & Hc & Hflat).
    exists c. split_and!; [done..| |].
    + by rewrite <- Hcells.
    + intros Hbin. rewrite Hcells in Hc by done. by eapply np_get_binary.
  - intros fuel s' (s1 & s2 & H1 & H2 & ->)%tick_Done.
    rewrite Hget in H1. injection H1 as <-. exists s2.
    pose proof (check_reward_frame _ _ _ H2) as Hs2.
    assert (vision_flat s2 = flatten v ∧ ai_bot s2 = ai_bot s) as [Hvf Hb]
      by (by rewrite Hs2).
    destruct (query_policy_fields s2) as (_ & _ & _ & _ & _ & Hqf & _ & Hqm & _).
    destruct (update_position_fields (query_policy s2))
      as (_ & _ & _ & Huf & _ & Hum & _).
    cbn [draw movement vision_flat set_ai_bot].
    rewrite Hum, Hqm, Huf, Hqf, Hvf, Hb. done.
Qed.

(** *** Reward collection and respawn *)

(** Once the agent's cell is cleared it is an empty cell, and a cell is
    empty afterwards exactly if it is the agent's or was empty before. *)
Lemma cleared_empty (a w : list (list Z)) r c r' c' :
  shape WORLD_SIZE WORLD_SIZE a →
  0 ≤ r < WORLD_SIZE → 0 ≤ c < WORLD_SIZE →
  0 ≤ r' < WORLD_SIZE → 0 ≤ c' < WORLD_SIZE →
  np_set a r c 0 = Done w →
  np_get w r' c' = Done 0 ↔ (r', c') = (r, c) ∨ np_get a r' c' = Done 0.
Proof.
  intros Ha Hr Hc Hr' Hc' Hset.
  destruct (decide ((r', c') = (r, c))) as [Heq|Hne].
  - injection Heq as -> ->.
    rewrite (np_get_set_eq _ _ _ _ _ _ _ Ha Hr Hc Hset). split; [by left|done].
  - rewrite (np_get_set_ne _ _ _ _ _ _ _ _ _ Ha Hr Hc Hr' Hc' Hne Hset).
    split; [by right|by intros [?|?]].
Qed.

Lemma check_reward_finishes fuel s (k : nat) :
  0 < WORLD_SIZE → game_ok s → (k < fuel)%nat →
  (draw_y (rng s + 2 * k), draw_x (rng s + 2 * k)) = (bot_y s, bot_x s)
  ∨ np_get (world s) (draw_y (rng s + 2 * k)) (draw_x (rng s + 2 * k)) = Done 0 →
  ∃ s', check_reward fuel s = Done s'.
Proof.
  intros Hpos (Hshape & Hx & Hy) Hk Hhit.
  destruct (np_get_total _ _ (world s) (bot_y s) (bot_x s) Hshape Hy Hx) as [c Hc].
  destruct (decide (c = 1)) as [->|Hne].
  - rewrite check_reward_collect by done.
    destruct (np_set_total _ _ (world s) (bot_y s) (bot_x s) 0 Hshape Hy Hx)
      as [w Hset].
    rewrite Hset. cbn [mbind outcome_bind].
    apply (spawn_new_reward_finishes k); [done| |  |done];
      cbn [world rng set_world set_reward].
    + by eapply np_set_shape.
    + by apply (proj2 (cleared_empty (world s) w (bot_y s) (bot_x s) _ _
                         Hshape Hy Hx (draw_y_range _ Hpos) (draw_x_range _ Hpos)
                         Hset)).
  - eexists. by eapply check_reward_no_reward.
Qed.

(** C1.  Reward-count conservation.  Whenever the reward block completes,
    the number of reward cells is what it was: either the agent's cell held
    no reward and the world is unchanged, or it held one, that cell was
    cleared and exactly one cell that was empty then was set.  Hence the
    count is the same after any number of rounds, in particular the same as
    right after start-up.  The block does complete on a well-formed state
    as soon as one draw of the generator designates an empty cell (the
    cell just cleared counts). *)
Theorem reward_count_conservation fuel s :
  (∀ s', check_reward fuel s = Done s' →
     reward_count (world s') = reward_count (world s)
     ∧ ((∃ c, np_get (world s) (bot_y s) (bot_x s) = Done c ∧ c ≠ 1
              ∧ world s' = world s)
        ∨ (np_get (world s) (bot_y s) (bot_x s) = Done 1
           ∧ ∃ w ny nx,
               np_set (world s) (bot_y s) (bot_x s) 0 = Done w
               ∧ np_get w ny nx = Done 0
               ∧ np_set w ny nx 1 = Done (world s'))))
  ∧ (∀ n s', run fuel n s = Done s' →
       reward_count (world s') = reward_count (world s))
  ∧ (∀ n s0 s', init = Done s0 → run fuel n s0 = Done s' →
       reward_count (world s') = reward_count (world s0))
  ∧ (0 < WORLD_SIZE → game_ok s →
     ∀ k : nat, (k < fuel)%nat →
       (draw_y (rng s + 2 * k), draw_x (rng s + 2 * k)) = (bot_y s, bot_x s)
       ∨ np_get (world s) (draw_y (rng s + 2 * k)) (draw_x (rng s + 2 * k))
         = Done 0 →
       ∃ s', check_reward fuel s = Done s').
Proof.
  split_and!.
  - intros s' Hdone. split; [by eapply check_reward_count|].
    apply check_reward_Done in Hdone
      as [(v & Hv & Hne & ->)|(Hget & w & Hset & Hspawn)].
    + left. by exists v.
    + right. split; [done|].
      apply spawn_new_reward_Done in Hspawn as (k & _ & Hhit & Hnew & _).
      cbn [world rng set_world set_reward] in Hhit, Hnew. eauto 10.
  - intros n s'. apply run_count.
  - intros n s0 s' _. apply run_count.
  - intros Hpos Hok k Hk Hhit. by eapply check_reward_finishes.
Qed.

(** C8.  No collection: when the agent's cell holds no reward, the reward
    block completes at once with the signal [0] and changes nothing else in
    the state; the round as a whole then leaves the world as it was and
    the policy is queried with reward [0]. *)
Theorem no_collection_frame fuel s v :
  np_get (world s) (bot_y s) (bot_x s) = Done v → v ≠ 1 →
  check_reward fuel s = Done (set_reward 0 s)
  ∧ world (set_reward 0 s) = world s
  ∧ reward (set_reward 0 s) = 0
  ∧ rng (set_reward 0 s) = rng s
  ∧ (0 < WORLD_SIZE → 0 ≤ VISION_SIZE → shape WORLD_SIZE WORLD_SIZE (world s) →
     ∃ s1 s', get_vision s = Done s1 ∧ tick fuel s = Done s'
       ∧ world s' = world s ∧ reward s' = 0 ∧ rng s' = rng s
       ∧ movement s' = (choose_action (ai_bot s) (vision_flat s1) 0).2).
Proof.
  intros Hv Hne. split_and!; try done.
  - by eapply check_reward_no_reward.
  - intros Hpos Hvs Hw.
    destruct (get_vision_Done s Hpos Hvs Hw) as (vis & Hget & _).
    set (s1 := set_vision_flat (flatten vis) (set_vision vis s)) in *.
    assert (check_reward fuel s1 = Done (set_reward 0 s1)) as Hcheck
      by (by eapply check_reward_no_reward).
    exists s1. eexists. split; [done|]. split; [by eapply tick_stages|].
    destruct (query_policy_fields (set_reward 0 s1))
      as (Hw1 & _ & _ & Hr1 & _ & _ & Hg1 & Hm1 & _).
    destruct (update_position_fields (query_policy (set_reward 0 s1)))
      as (Hw2 & Hr2 & _ & _ & Hg2 & Hm2 & _).
    cbn [draw world reward rng movement set_ai_bot].
    rewrite Hw2, Hw1, Hr2, Hr1, Hg2, Hg1, Hm2, Hm1. done.
Qed.

(** C2 (as the code has it).  When a reward is collected, the new reward is
    placed on the first cell drawn that is empty after the agent's cell has
    been cleared: the search takes the draws in order from the generator's
    cursor, rejects every draw that designates an occupied cell, and sets
    the cell [(new_y, new_x)] of the first draw that designates an empty
    one.  That cell either was empty before, or is the very cell just
    collected: nothing keeps the new reward away from the collected
    cell. *)
Theorem respawn_on_empty_cell fuel s s' :
  0 < WORLD_SIZE → game_ok s →
  np_get (world s) (bot_y s) (bot_x s) = Done 1 →
  check_reward fuel s = Done s' →
  ∃ w (k : nat),
    (k < fuel)%nat
    ∧ np_set (world s) (bot_y s) (bot_x s) 0 = Done w
    ∧ (∀ k' : nat, (k' < k)%nat →
         ∃ v, np_get w (draw_y (rng s + 2 * k')) (draw_x (rng s + 2 * k'))
              = Done v ∧ v ≠ 0)
    ∧ 0 ≤ draw_y (rng s + 2 * k) < WORLD_SIZE
    ∧ 0 ≤ draw_x (rng s + 2 * k) < WORLD_SIZE
    ∧ np_get w (draw_y (rng s + 2 * k)) (draw_x (rng s + 2 * k)) = Done 0
    ∧ ((draw_y (rng s + 2 * k), draw_x (rng s + 2 * k)) = (bot_y s, bot_x s)
       ∨ np_get (world s) (draw_y (rng s + 2 * k)) (draw_x (rng s + 2 * k))
         = Done 0)
    ∧ np_set w (draw_y (rng s + 2 * k)) (draw_x (rng s + 2 * k)) 1
      = Done (world s')
    ∧ np_get (world s') (draw_y (rng s + 2 * k)) (draw_x (rng s + 2 * k))
      = Done 1
    ∧ (∀ r c, 0 ≤ r < WORLD_SIZE → 0 ≤ c < WORLD_SIZE →
         (r, c) ≠ (draw_y (rng s + 2 * k), draw_x (rng s + 2 * k)) →
         np_get (world s') r c = np_get w r c)
    ∧ rng s' = (rng s + 2 * k + 2)%nat
    ∧ reward s' = 1.
Proof.
  intros Hpos (Hshape & Hx & Hy) Hcell Hdone.
  destruct (check_reward_signal _ _ _ Hdone) as (c & Hc & Hsig).
  rewrite Hcell in Hc. injection Hc as <-.
  apply check_reward_Done in Hdone
    as [(v & Hv & Hne & _)|(_ & w & Hset & Hspawn)]; [congruence|].
  apply spawn_new_reward_Done in Hspawn as (k & Hk & Hhit & Hnew & Hs' & Hbefore).
  cbn [world rng set_world set_reward] in Hhit, Hnew, Hs', Hbefore.
  pose proof (draw_y_range (rng s + 2 * k) Hpos) as Hny.
  pose proof (draw_x_range (rng s + 2 * k) Hpos) as Hnx.
  pose proof (np_set_shape _ _ _ _ _ _ _ Hshape Hset) as Hshape'.
  exists w, k.
  split_and!; try done; try lia.
  - by apply (proj1 (cleared_empty (world s) w (bot_y s) (bot_x s) _ _
                       Hshape Hy Hx Hny Hnx Hset)).
  - exact (np_get_set_eq _ _ _ _ _ _ _ Hshape' Hny Hnx Hnew).
  - intros r c Hr Hc Hne.
    exact (np_get_set_ne _ _ _ _ _ _ _ r c Hshape' Hny Hnx Hr Hc Hne Hnew).
  - by rewrite Hs'.
Qed.


(** *** Movement and the order of a round *)

Lemma update_position_pos s t :
  movement s = movement t → bot_x s = bot_x t → bot_y s = bot_y t →
  bot_x (update_position s) = bot_x (update_position t)
  ∧ bot_y (update_position s) = bot_y (update_position t).
Proof.
  intros Hm Hx Hy. unfold update_position. rewrite Hm.
  repeat case_bool_decide; cbn [bot_x bot_y set_bot_x set_bot_y]; by rewrite ?Hx, ?Hy.
Qed.

(** C3 (as the code has it).  An action value outside the four recognised
    moves is ignored: the movement step returns the state it was given, and
    the round completes normally with the agent where it was.  No error is
    raised. *)
Theorem unrecognized_action_ignored fuel s s1 s2 m :
  get_vision s = Done s1 → check_reward fuel s1 = Done s2 →
  (choose_action (ai_bot s2) (vision_flat s2) (reward s2)).2 = m →
  m ≠ 0 → m ≠ 1 → m ≠ 2 → m ≠ 3 →
  update_position (query_policy s2) = query_policy s2
  ∧ ∃ s', tick fuel s = Done s' ∧ movement s' = m
          ∧ bot_x s' = bot_x s ∧ bot_y s' = bot_y s.
Proof.
  intros H1 H2 Hm H0' H1' H2' H3'.
  destruct (query_policy_fields s2) as (_ & Hqx & Hqy & _ & _ & _ & _ & Hqm & _).
  rewrite Hm in Hqm.
  assert (update_position (query_policy s2) = query_policy s2) as Hsame
    by (apply update_position_unrecognized; congruence).
  split; [done|]. eexists. split; [by eapply tick_stages|].
  rewrite Hsame. cbn [draw movement bot_x bot_y set_ai_bot].
  apply get_vision_frame in H1 as [v ->]. apply check_reward_frame in H2.
  assert (bot_x s2 = bot_x s ∧ bot_y s2 = bot_y s) as [Hx2 Hy2]
    by (by rewrite H2).
  split_and!; congruence.
Qed.

(** C5.  The order of a round.  The observation is computed first, at the
    position the agent has when the round starts and on the world as it is
    then; the reward is then evaluated, and cleared and respawned, at that
    same position; the policy is then queried with that observation and
    that reward; the move is applied last, to the position of the start of
    the round.  The world after the round is the world after the reward
    block: nothing is resolved at the position reached by the move. *)
Theorem tick_ordering fuel s s' :
  0 < WORLD_SIZE → 0 ≤ VISION_SIZE → game_ok s →
  tick fuel s = Done s' →
  ∃ s1 s2,
    get_vision s = Done s1
    ∧ world s1 = world s ∧ bot_x s1 = bot_x s ∧ bot_y s1 = bot_y s
    ∧ (∀ i j, 0 ≤ i < VISION_SIZE → 0 ≤ j < VISION_SIZE →
         np_get (vision s1) i j
         = read (world s) (bot_x s - VISION_SIZE / 2 + j)
                          (bot_y s - VISION_SIZE / 2 + i))
    ∧ vision_flat s1 = flatten (vision s1)
    ∧ check_reward fuel s1 = Done s2
    ∧ bot_x s2 = bot_x s ∧ bot_y s2 = bot_y s
    ∧ (∃ c, np_get (world s) (bot_y s) (bot_x s) = Done c
         ∧ reward s2 = (if bool_decide (c = 1) then 1 else 0)
         ∧ (c ≠ 1 → world s2 = world s)
         ∧ (c = 1 → ∃ w, np_set (world s) (bot_y s) (bot_x s) 0 = Done w
                         ∧ spawn_new_reward fuel (set_world w (set_reward 1 s1))
                           = Done s2))
    ∧ movement s' = (choose_action (ai_bot s) (vision_flat s1) (reward s2)).2
    ∧ bot_x s' = bot_x (update_position (set_movement (movement s') s))
    ∧ bot_y s' = bot_y (update_position (set_movement (movement s') s))
    ∧ world s' = world s2 ∧ reward s' = reward s2.
Proof.
  intros Hpos Hvs (Hshape & Hx & Hy) (s1 & s2 & H1 & H2 & ->)%tick_Done.
  destruct (get_vision_Done s Hpos Hvs Hshape) as (v & Hget & Hvshape & Hcells).
  rewrite Hget in H1. injection H1 as <-.
  set (s1 := set_vision_flat (flatten v) (set_vision v s)) in *.
  exists s1, s2.
  pose proof (check_reward_frame _ _ _ H2) as Hs2.
  assert (bot_x s2 = bot_x s ∧ bot_y s2 = bot_y s ∧ ai_bot s2 = ai_bot s
          ∧ vision_flat s2 = flatten v) as (Hx2 & Hy2 & Hb2 & Hvf2)
    by (by rewrite Hs2).
  destruct (query_policy_fields s2)
    as (Hqw & Hqx & Hqy & Hqr & _ & _ & _ & Hqm & _).
  destruct (update_position_fields (query_policy s2))
    as (Huw & Hur & _ & _ & _ & Hum & _).
  assert (movement (draw (update_position (query_policy s2)))
          = (choose_action (ai_bot s) (flatten v) (reward s2)).2) as Hmove.
  { cbn [draw movement set_ai_bot]. by rewrite Hum, Hqm, Hb2, Hvf2. }
  destruct (update_position_pos (query_policy s2)
              (set_movement (movement (draw (update_position (query_policy s2)))) s))
    as [Hpx Hpy].
  { cbn [movement set_movement]. cbn [draw movement set_ai_bot]. by rewrite Hum. }
  { cbn [bot_x set_movement]. congruence. }
  { cbn [bot_y set_movement]. congruence. }
  split_and!; try done.
  - destruct (check_reward_signal _ _ _ H2) as (c & Hc & Hsig).
    exists c. split_and!; try done.
    + intros Hne. erewrite check_reward_no_reward in H2 by done.
      by injection H2 as <-.
    + intros ->. rewrite check_reward_collect in H2 by done.
      apply bind_Done in H2 as (w & Hw & Hspawn). eauto.
  - cbn [draw world set_ai_bot]. congruence.
  - cbn [draw reward set_ai_bot]. congruence.
Qed.

(** *** Start-up *)

(** C9.  Start-up draws [REWARD_AMOUNT] cells, each coordinate a separate
    draw over [0 .. WORLD_SIZE - 1], and sets each drawn cell to reward.
    Afterwards every drawn cell holds a reward, only drawn cells do, and the
    number of reward cells is at most [REWARD_AMOUNT]; it is strictly
    smaller as soon as two draws designate the same cell. *)
Theorem init_under_placement :
  0 < WORLD_SIZE → 0 ≤ REWARD_AMOUNT →
  ∃ s0, init = Done s0
    ∧ shape WORLD_SIZE WORLD_SIZE (world s0) ∧ binary (world s0)
    ∧ (∀ k : nat, Z.of_nat k < REWARD_AMOUNT →
         0 ≤ draw_y (2 * k) < WORLD_SIZE ∧ 0 ≤ draw_x (2 * k) < WORLD_SIZE
         ∧ np_get (world s0) (draw_y (2 * k)) (draw_x (2 * k)) = Done 1)
    ∧ (∀ r c, 0 ≤ r < WORLD_SIZE → 0 ≤ c < WORLD_SIZE →
         np_get (world s0) r c = Done 1 →
         ∃ k : nat, Z.of_nat k < REWARD_AMOUNT
                    ∧ r = draw_y (2 * k) ∧ c = draw_x (2 * k))
    ∧ Z.of_nat (reward_count (world s0)) ≤ REWARD_AMOUNT
    ∧ (∀ k k' : nat, (k < k')%nat → Z.of_nat k' < REWARD_AMOUNT →
         draw_y (2 * k) = draw_y (2 * k') → draw_x (2 * k) = draw_x (2 * k') →
         Z.of_nat (reward_count (world s0)) < REWARD_AMOUNT)
    ∧ bot_x s0 = 1 ∧ bot_y s0 = 1.
Proof.
  intros Hpos Hamount.
  destruct (init_rounds (Z.to_nat REWARD_AMOUNT) Hpos)
    as (s0 & Hloop & Hs0 & Hshape & Hbin & Hcount & Hdrawn & Honly & Hdup).
  rewrite Z2Nat.id in Hloop by done.
  exists s0. split; [done|]. split_and!; try done.
  - intros k Hk. pose proof (draw_y_range (2 * k) Hpos).
    pose proof (draw_x_range (2 * k) Hpos).
    split_and!; try lia. apply Hdrawn. lia.
  - intros r c Hr Hc Hget. destruct (Honly r c Hr Hc Hget) as (k & Hk & ? & ?).
    exists k. split_and!; [lia|done..].
  - lia.
  - intros k k' Hk Hk' Hy Hx.
    assert (reward_count (world s0) < Z.to_nat REWARD_AMOUNT)%nat; [|lia].
    apply (Hdup k k'); [lia|done..].
  - by rewrite Hs0.
  - by rewrite Hs0.
Qed.

End Properties.

(** ** The script's own parameters

    The theorems above at [WORLD_SIZE = 100], [VISION_SIZE = 7],
    [REWARD_AMOUNT = 400], and what the script does where it departs from
    its specification. *)

Lemma reward_count_conservation_witness :
  (∃ s', check_reward (params := source_params) (ent := stepping_entropy) 5
           (at_start lone_reward) = Done s'
         ∧ reward_count (world s') = reward_count lone_reward)
  ∧ (∃ s', run (params := source_params) (policy := always 3)
             (ent := stepping_entropy) 5 20 (at_start lone_reward) = Done s'
           ∧ reward_count (world s') = reward_count lone_reward).
Proof.
  destruct (@reward_count_conservation source_params unit (always 3)
              stepping_entropy 5 (at_start lone_reward))
    as (Hcheck & Hrun & _ & Hends).
  split.
  - destruct (Hends ltac:(evaluate) ltac:(evaluate) 0%nat ltac:(lia)
                ltac:(right; evaluate)) as [s' Hs'].
    exists s'. split; [exact Hs'|]. exact (proj1 (Hcheck s' Hs')).
  - eexists. split; [vm_compute; reflexivity|].
    apply (Hrun 20%nat). vm_compute. reflexivity.
Defined.

(** C2 as stated fails: with the single reward of the grid under the agent
    and a generator whose first draw is the agent's own cell [(1, 1)], the
    reward is collected and the new reward lands on the cell just
    collected; the grid is what it was. *)
Lemma respawn_hits_collected_cell :
  ∃ s', check_reward (params := source_params) (ent := constant_entropy 1) 1
          (at_start lone_reward) = Done s'
    ∧ reward s' = 1
    ∧ (bot_y s', bot_x s') = (1, 1)
    ∧ np_get (world s') 1 1 = Done 1
    ∧ reward_count (world s') = 1%nat
    ∧ world s' = lone_reward.
Proof. eexists. split; [vm_compute; reflexivity|]. by vm_compute. Qed.

Lemma respawn_on_empty_cell_witness :
  ∃ s' w (k : nat),
    check_reward (params := source_params) (ent := stepping_entropy) 5
      (at_start lone_reward) = Done s'
    ∧ (k < 5)%nat
    ∧ np_set lone_reward 1 1 0 = Done w
    ∧ np_get w (draw_y (params := source_params) (ent := stepping_entropy)
                  (0 + 2 * k))
               (draw_x (params := source_params) (ent := stepping_entropy)
                  (0 + 2 * k)) = Done 0
    ∧ np_set w (draw_y (params := source_params) (ent := stepping_entropy)
                  (0 + 2 * k))
               (draw_x (params := source_params) (ent := stepping_entropy)
                  (0 + 2 * k)) 1 = Done (world s').
Proof.
  assert (∃ s', check_reward (params := source_params) (ent := stepping_entropy)
                  5 (at_start lone_reward) = Done s') as [s' Hs']
    by (eexists; vm_compute; reflexivity).
  destruct (@respawn_on_empty_cell source_params unit stepping_entropy 5
              (at_start lone_reward) s' ltac:(evaluate) ltac:(evaluate)
              ltac:(evaluate) Hs')
    as (w & k & Hk & Hclear & _ & _ & _ & Hempty & _ & Hset & _).
  exists s', w, k. repeat split; assumption.
Defined.

(** C3 as stated fails: when the policy answers [7], the round completes
    normally, with the agent where it was; no error is raised. *)
Lemma action_seven_is_silent :
  ∃ s', tick (params := source_params) (policy := always 7)
          (ent := stepping_entropy) 5 (at_start lone_reward) = Done s'
    ∧ movement s' = 7 ∧ bot_x s' = 1 ∧ bot_y s' = 1.
Proof. eexists. split; [vm_compute; reflexivity|]. by vm_compute. Qed.

Lemma unrecognized_action_ignored_witness :
  ∃ s', tick (params := source_params) (policy := always 7)
          (ent := stepping_entropy) 5 (standing 4 9 lone_reward) = Done s'
    ∧ movement s' = 7 ∧ bot_x s' = 4 ∧ bot_y s' = 9.
Proof.
  assert (∃ s1 s2,
            get_vision (params := source_params) (standing 4 9 lone_reward)
            = Done s1
            ∧ check_reward (params := source_params) (ent := stepping_entropy)
                5 s1 = Done s2) as (s1 & s2 & H1 & H2)
    by (do 2 eexists; split; vm_compute; reflexivity).
  exact (proj2 (@unrecognized_action_ignored source_params unit (always 7)
                  stepping_entropy 5 (standing 4 9 lone_reward) s1 s2 7 H1 H2
                  ltac:(reflexivity) ltac:(lia) ltac:(lia) ltac:(lia)
                  ltac:(lia))).
Defined.



(** A round with the RIGHT policy from the start position, where the single
    reward lies: the reward is resolved where the agent stands, then the
    agent moves. *)
Lemma tick_ordering_witness :
  ∃ s' s1 s2,
    tick (params := source_params) (policy := always 3)
      (ent := stepping_entropy) 5 (at_start lone_reward) = Done s'
    ∧ get_vision (params := source_params) (at_start lone_reward) = Done s1
    ∧ check_reward (params := source_params) (ent := stepping_entropy) 5 s1
      = Done s2
    ∧ movement s' = 3
    ∧ bot_x s' = bot_x (update_position (params := source_params)
                          (set_movement (movement s') (at_start lone_reward)))
    ∧ world s' = world s2 ∧ reward s' = reward s2.
Proof.
  assert (∃ s', tick (params := source_params) (policy := always 3)
                  (ent := stepping_entropy) 5 (at_start lone_reward) = Done s')
    as [s' Hs'] by (eexists; vm_compute; reflexivity).
  destruct (@tick_ordering source_params unit (always 3) stepping_entropy 5
              (at_start lone_reward) s' ltac:(evaluate) ltac:(evaluate)
              ltac:(evaluate) Hs')
    as (s1 & s2 & H1 & _ & _ & _ & _ & _ & H2 & _ & _ & _ & Hm & Hx & _ & Hw & Hr).
  exists s', s1, s2. repeat split; assumption.
Defined.

Lemma vision_extraction_witness :
  ∃ s', get_vision (params := source_params) (at_start lone_reward) = Done s'
    ∧ world s' = lone_reward
    ∧ np_get (vision s') 3 3 = np_get lone_reward 1 1.
Proof.
  destruct (@vision_extraction source_params unit (at_start lone_reward)
              ltac:(evaluate) ltac:(evaluate) ltac:(evaluate))
    as (s' & Hget & _ & Hworld & _ & _ & _ & _ & Hcentre).
  exists s'. split; [exact Hget|]. split; [exact Hworld|].
  exact (proj2 (Hcentre ltac:(reflexivity)) ltac:(evaluate) ltac:(evaluate)).
Defined.

(** The agent one cell left of the reward, with the RIGHT policy: it is told
    "no reward", the world stays as it is, and the reward it moves onto is
    still there after the round. *)
Lemma no_collection_frame_witness :
  check_reward (params := source_params) (ent := stepping_entropy) 5
    (standing 0 1 lone_reward)
  = Done (set_reward 0 (standing 0 1 lone_reward))
  ∧ ∃ s1 s', get_vision (params := source_params) (standing 0 1 lone_reward)
             = Done s1
      ∧ tick (params := source_params) (policy := always 3)
          (ent := stepping_entropy) 5 (standing 0 1 lone_reward) = Done s'
      ∧ world s' = lone_reward ∧ reward s' = 0.
Proof.
  destruct (@no_collection_frame source_params unit (always 3) stepping_entropy
              5 (standing 0 1 lone_reward) 0 ltac:(evaluate) ltac:(lia))
    as (Hcheck & _ & _ & _ & Htick).
  split; [exact Hcheck|].
  destruct (Htick ltac:(evaluate) ltac:(evaluate) ltac:(evaluate))
    as (s1 & s' & H1 & H2 & Hw & Hr & _).
  exists s1, s'. repeat split; assumption.
Defined.

(** With the progression as generator the 400 draws of start-up repeat
    themselves (draw [50] is draw [0] again): fewer than 400 rewards are
    placed. *)
Lemma init_under_placement_witness :
  ∃ s0, init (params := source_params) (policy := always 3)
          (ent := stepping_entropy) = Done s0
    ∧ Z.of_nat (reward_count (world s0)) ≤ 400
    ∧ Z.of_nat (reward_count (world s0)) < 400
    ∧ bot_x s0 = 1 ∧ bot_y s0 = 1.
Proof.
  destruct (@init_under_placement source_params unit (always 3) stepping_entropy
              ltac:(evaluate) ltac:(evaluate))
    as (s0 & Hinit & _ & _ & _ & _ & Hle & Hdup & Hx & Hy).
  exists s0. split; [exact Hinit|]. split; [exact Hle|].
  split; [|split; assumption].
  exact (Hdup 0%nat 50%nat ltac:(lia) ltac:(evaluate) ltac:(evaluate)
           ltac:(evaluate)).
Defined.

Lemma observation_flattening_witness :
  ∃ s1, get_vision (params := source_params) (at_start lone_reward) = Done s1
    ∧ Z.of_nat (length (vision_flat s1)) = 49
    ∧ ∃ c, vision_flat s1 !! 24%nat = Some c ∧ np_get (vision s1) 3 3 = Done c
           ∧ (c = 0 ∨ c = 1).
Proof.
  destruct (@observation_flattening source_params unit (always 3)
              stepping_entropy (at_start lone_reward)
              ltac:(evaluate) ltac:(evaluate) ltac:(evaluate))
    as (s1 & Hget & Hlen & Hcells & _).
  exists s1. split; [exact Hget|]. split; [exact Hlen|].
  destruct (Hcells 3 3 ltac:(evaluate) ltac:(evaluate))
    as (c & Hflat & Hwin & _ & Hbin).
  exists c. split; [exact Hflat|]. split; [exact Hwin|].
  exact (Hbin ltac:(evaluate)).
Defined.

(** * Further properties of the script *)

Section Further.

Context {params : Params} {AI_Bot_state : Type} {policy : Policy AI_Bot_state}
  {ent : Entropy}.

Implicit Types s t : game (AI_Bot_state := AI_Bot_state).

(** ** Movement *)

Lemma step_back (a n : Z) : 0 < n → 0 ≤ a < n →
  ((a - 1) mod n + 1) mod n = a ∧ ((a + 1) mod n - 1) mod n = a.
Proof.
  intros Hn Ha. split.
  - rewrite Zplus_mod_idemp_l. replace (a - 1 + 1) with a by lia.
    by apply Z.mod_small.
  - rewrite Zminus_mod_idemp_l. replace (a + 1 - 1) with a by lia.
    by apply Z.mod_small.
Qed.

(** X1.  Opposite moves cancel: from a position on the grid, UP then DOWN,
    DOWN then UP, LEFT then RIGHT and RIGHT then LEFT each bring the agent
    back to where it was, also across the edge of the grid. *)
Theorem opposite_moves_cancel s :
  0 < WORLD_SIZE → 0 ≤ bot_x s < WORLD_SIZE → 0 ≤ bot_y s < WORLD_SIZE →
  (∀ a b, (a, b) = (0, 1) ∨ (a, b) = (1, 0) ∨ (a, b) = (2, 3) ∨ (a, b) = (3, 2) →
     bot_x (update_position (set_movement b (update_position (set_movement a s))))
     = bot_x s
     ∧ bot_y (update_position (set_movement b (update_position (set_movement a s))))
       = bot_y s).
Proof.
  intros Hpos Hx Hy a b Hab.
  destruct (step_back (bot_x s) WORLD_SIZE Hpos Hx) as [Hx1 Hx2].
  destruct (step_back (bot_y s) WORLD_SIZE Hpos Hy) as [Hy1 Hy2].
  destruct Hab as [[= -> ->]|[[= -> ->]|[[= -> ->]|[= -> ->]]]];
    unfold update_position;
    cbn [movement bot_x bot_y set_movement set_bot_x set_bot_y bool_decide
         decide_rel Z.eq_dec];
    done.
Qed.

(** The four recognised moves. *)
Lemma update_position_move s :
  (movement s = 0 → bot_x (update_position s) = bot_x s
     ∧ bot_y (update_position s) = (bot_y s - 1) mod WORLD_SIZE)
  ∧ (movement s = 1 → bot_x (update_position s) = bot_x s
       ∧ bot_y (update_position s) = (bot_y s + 1) mod WORLD_SIZE)
  ∧ (movement s = 2 → bot_x (update_position s) = (bot_x s - 1) mod WORLD_SIZE
       ∧ bot_y (update_position s) = bot_y s)
  ∧ (movement s = 3 → bot_x (update_position s) = (bot_x s + 1) mod WORLD_SIZE
       ∧ bot_y (update_position s) = bot_y s).
Proof.
  unfold update_position. split_and!; intros ->;
    repeat (rewrite bool_decide_eq_false_2 by done);
    rewrite bool_decide_eq_true_2 by done; done.
Qed.

(** The position after a round is the move chosen in that round applied to
    the position before it. *)
Lemma tick_position fuel s s' :
  tick fuel s = Done s' →
  bot_x s' = bot_x (update_position (set_movement (movement s') s))
  ∧ bot_y s' = bot_y (update_position (set_movement (movement s') s))
  ∧ ∃ b o r, movement s' = (choose_action b o r).2.
Proof.
  intros (s1 & s2 & H1 & H2 & ->)%tick_Done.
  apply get_vision_frame in H1 as [v ->]. apply check_reward_frame in H2.
  assert (bot_x s2 = bot_x s ∧ bot_y s2 = bot_y s) as [Hx2 Hy2]
    by (by rewrite H2).
  destruct (query_policy_fields s2) as (_ & Hqx & Hqy & _ & _ & _ & _ & Hqm & _).
  destruct (update_position_fields (query_policy s2))
    as (_ & _ & _ & _ & _ & Hum & _).
  cbn [draw movement bot_x bot_y set_ai_bot]. rewrite Hum.
  destruct (update_position_pos (query_policy s2)
              (set_movement (movement (query_policy s2)) s)) as [-> ->];
    [done|cbn [bot_x set_movement]; congruence
    |cbn [bot_y set_movement]; congruence|].
  split_and!; [done..|]. rewrite Hqm. eauto.
Qed.

(** X2.  A policy that always answers the same recognised move walks the
    agent round the torus: after [n] completed rounds the coordinate of
    that move has advanced by [n] modulo [WORLD_SIZE] and the other one is
    untouched; after a multiple of [WORLD_SIZE] rounds the agent is back
    where it started. *)
Theorem steady_policy_walk fuel (n : nat) m : ∀ s s',
  0 < WORLD_SIZE → 0 ≤ bot_x s < WORLD_SIZE → 0 ≤ bot_y s < WORLD_SIZE →
  (∀ b o r, (choose_action b o r).2 = m) →
  run fuel n s = Done s' →
  (m = 0 → bot_x s' = bot_x s ∧ bot_y s' = (bot_y s - Z.of_nat n) mod WORLD_SIZE)
  ∧ (m = 1 → bot_x s' = bot_x s ∧ bot_y s' = (bot_y s + Z.of_nat n) mod WORLD_SIZE)
  ∧ (m = 2 → bot_x s' = (bot_x s - Z.of_nat n) mod WORLD_SIZE ∧ bot_y s' = bot_y s)
  ∧ (m = 3 → bot_x s' = (bot_x s + Z.of_nat n) mod WORLD_SIZE ∧ bot_y s' = bot_y s)
  ∧ (0 ≤ m ≤ 3 → Z.of_nat n mod WORLD_SIZE = 0 →
     bot_x s' = bot_x s ∧ bot_y s' = bot_y s).
Proof.
  intros s s' Hpos Hx Hy Hpolicy Hrun.
  assert ((m = 0 → bot_x s' = bot_x s
                   ∧ bot_y s' = (bot_y s - Z.of_nat n) mod WORLD_SIZE)
          ∧ (m = 1 → bot_x s' = bot_x s
                     ∧ bot_y s' = (bot_y s + Z.of_nat n) mod WORLD_SIZE)
          ∧ (m = 2 → bot_x s' = (bot_x s - Z.of_nat n) mod WORLD_SIZE
                     ∧ bot_y s' = bot_y s)
          ∧ (m = 3 → bot_x s' = (bot_x s + Z.of_nat n) mod WORLD_SIZE
                     ∧ bot_y s' = bot_y s)) as Hwalk.
  { revert s Hx Hy Hrun. induction n as [|n IH]; intros s Hx Hy.
    - intros [= <-]. change (Z.of_nat 0) with 0.
      rewrite !Z.sub_0_r, !Z.add_0_r, !Z.mod_small by done. done.
    - cbn [run]. intros (s1 & Htick & Hrest)%bind_Done.
      destruct (tick_position _ _ _ Htick) as (Hx1 & Hy1 & b & o & r & Hm).
      rewrite Hpolicy in Hm. rewrite Hm in Hx1, Hy1.
      destruct (update_position_range (set_movement m s) Hpos Hx Hy)
        as [Hx1' Hy1'].
      rewrite <- Hx1 in Hx1'. rewrite <- Hy1 in Hy1'.
      destruct (update_position_move (set_movement m s)) as (M0 & M1 & M2 & M3).
      cbn [movement bot_x bot_y set_movement] in M0, M1, M2, M3.
      destruct (IH s1 Hx1' Hy1' Hrest) as (H0 & H1 & H2 & H3).
      rewrite Hx1, Hy1 in H0, H1, H2, H3.
      split_and!; intros Hmv.
      + destruct (H0 Hmv) as [-> ->]. destruct (M0 Hmv) as [-> ->].
        split; [done|]. rewrite Zminus_mod_idemp_l. f_equal. lia.
      + destruct (H1 Hmv) as [-> ->]. destruct (M1 Hmv) as [-> ->].
        split; [done|]. rewrite Zplus_mod_idemp_l. f_equal. lia.
      + destruct (H2 Hmv) as [-> ->]. destruct (M2 Hmv) as [-> ->].
        split; [|done]. rewrite Zminus_mod_idemp_l. f_equal. lia.
      + destruct (H3 Hmv) as [-> ->]. destruct (M3 Hmv) as [-> ->].
        split; [|done]. rewrite Zplus_mod_idemp_l. f_equal. lia. }
  destruct Hwalk as (H0 & H1 & H2 & H3). split_and!; try done.
  intros Hm Hn.
  assert (∀ a, 0 ≤ a < WORLD_SIZE →
            (a + Z.of_nat n) mod WORLD_SIZE = a
            ∧ (a - Z.of_nat n) mod WORLD_SIZE = a) as Hround.
  { intros a Ha. apply Z.mod_divide in Hn as [q Hq]; [|lia]. rewrite Hq.
    split.
    - rewrite Z_mod_plus_full. by apply Z.mod_small.
    - replace (a - q * WORLD_SIZE) with (a + (- q) * WORLD_SIZE) by lia.
      rewrite Z_mod_plus_full. by apply Z.mod_small. }
  destruct (Hround _ Hx) as [Hxp Hxm]. destruct (Hround _ Hy) as [Hyp Hym].
  assert (m = 0 ∨ m = 1 ∨ m = 2 ∨ m = 3) as [-> | [-> | [-> | ->]]] by lia.
  - destruct (H0 eq_refl) as [-> ->]. by rewrite Hym.
  - destruct (H1 eq_refl) as [-> ->]. by rewrite Hyp.
  - destruct (H2 eq_refl) as [-> ->]. by rewrite Hxm.
  - destruct (H3 eq_refl) as [-> ->]. by rewrite Hxp.
Qed.

(** ** No index error *)

Lemma spawn_new_reward_no_raise fuel : ∀ s e,
  0 < WORLD_SIZE → shape WORLD_SIZE WORLD_SIZE (world s) →
  spawn_new_reward fuel s ≠ Raise e.
Proof.
  induction fuel as [|fuel IH]; intros s e Hpos Hshape; [done|].
  rewrite spawn_new_reward_S.
  destruct (np_get_total _ _ (world s) (draw_y (rng s)) (draw_x (rng s))
              Hshape (draw_y_range _ Hpos) (draw_x_range _ Hpos)) as [c ->].
  cbn [mbind outcome_bind]. case_bool_decide.
  - destruct (np_set_total _ _ (world s) (draw_y (rng s)) (draw_x (rng s)) 1
                Hshape (draw_y_range _ Hpos) (draw_x_range _ Hpos)) as [w ->].
    done.
  - by apply IH.
Qed.

Lemma check_reward_no_raise fuel s e :
  0 < WORLD_SIZE → game_ok s → check_reward fuel s ≠ Raise e.
Proof.
  intros Hpos (Hshape & Hx & Hy).
  destruct (np_get_total _ _ (world s) (bot_y s) (bot_x s) Hshape Hy Hx) as [c Hc].
  destruct (decide (c = 1)) as [->|Hne].
  - rewrite check_reward_collect by done.
    destruct (np_set_total _ _ (world s) (bot_y s) (bot_x s) 0 Hshape Hy Hx)
      as [w Hset].
    rewrite Hset. cbn [mbind outcome_bind].
    apply spawn_new_reward_no_raise; [done|]. by eapply np_set_shape.
  - by erewrite check_reward_no_reward.
Qed.

Lemma tick_no_raise fuel s e :
  0 < WORLD_SIZE → 0 ≤ VISION_SIZE → game_ok s → tick fuel s ≠ Raise e.
Proof.
  intros Hpos Hvs Hok. pose proof Hok as (Hshape & Hx & Hy).
  destruct (get_vision_Done s Hpos Hvs Hshape) as (v & Hget & _).
  unfold tick. rewrite Hget. cbn [mbind outcome_bind].
  set (s1 := set_vision_flat (flatten v) (set_vision v s)).
  assert (game_ok s1) as Hok1 by done.
  pose proof (check_reward_no_raise fuel s1 e Hpos Hok1).
  by destruct (check_reward fuel s1).
Qed.

(** X3.  From a well-formed state (the world has its shape and the agent
    stands on the grid) no number of rounds raises an index error: a run
    either completes, in a well-formed state again, or is still searching
    for an empty cell to respawn on. *)
Theorem rounds_never_raise fuel (n : nat) : ∀ s,
  0 < WORLD_SIZE → 0 ≤ VISION_SIZE → game_ok s →
  (∀ e, run fuel n s ≠ Raise e)
  ∧ (∀ s', run fuel n s = Done s' → game_ok s').
Proof.
  induction n as [|n IH]; intros s Hpos Hvs Hok.
  - split; [done|]. by intros s' [= <-].
  - cbn [run]. pose proof (tick_no_raise fuel s) as Htick.
    destruct (tick fuel s) as [s1| |] eqn:Hs1; cbn [mbind outcome_bind].
    + apply IH; [done..|]. by eapply tick_ok.
    + by destruct (Htick e Hpos Hvs Hok).
    + done.
Qed.

(** ** Start-up followed by rounds *)

Lemma tick_binary fuel s s' :
  tick fuel s = Done s' → binary (world s) → binary (world s').
Proof.
  intros (s1 & s2 & _ & Hw & H2 & ->)%tick_world Hbin.
  eapply check_reward_binary; [done|]. by rewrite Hw.
Qed.

Lemma run_binary fuel n : ∀ s s',
  run fuel n s = Done s' → binary (world s) → binary (world s').
Proof.
  induction n as [|n IH]; intros s s'; cbn [run].
  - by intros [= <-].
  - intros (s1 & H1 & Hrest)%bind_Done Hbin. eauto using tick_binary.
Qed.

(** X4.  On a grid of more than one cell per side, start-up leaves a
    well-formed state with the agent at [(1, 1)] and a binary world, and
    every state reached from it by completed rounds is well formed, has a
    binary world, and carries exactly as many rewards as start-up placed,
    at most [REWARD_AMOUNT]. *)
Theorem start_up_then_rounds :
  1 < WORLD_SIZE → 0 ≤ VISION_SIZE → 0 ≤ REWARD_AMOUNT →
  ∃ s0, init = Done s0
    ∧ game_ok s0 ∧ binary (world s0) ∧ bot_x s0 = 1 ∧ bot_y s0 = 1
    ∧ ∀ fuel n,
        (∀ e, run fuel n s0 ≠ Raise e)
        ∧ ∀ s', run fuel n s0 = Done s' →
            game_ok s' ∧ binary (world s')
            ∧ reward_count (world s') = reward_count (world s0)
            ∧ Z.of_nat (reward_count (world s')) ≤ REWARD_AMOUNT.
Proof.
  intros Hws Hvs Hamount. assert (0 < WORLD_SIZE) as Hpos by lia.
  destruct (init_under_placement Hpos Hamount)
    as (s0 & Hinit & Hshape & Hbin & _ & _ & Hcount & _ & Hx & Hy).
  assert (game_ok s0) as Hok by (unfold game_ok; rewrite Hx, Hy; split_and!; lia || done).
  exists s0. split_and!; try done.
  intros fuel n.
  destruct (rounds_never_raise fuel n s0 Hpos Hvs Hok) as [Hraise Hok'].
  split; [done|]. intros s' Hrun.
  pose proof (run_count _ _ _ _ Hrun) as Hsame.
  split_and!; [by apply Hok'..|by eapply run_binary|done|lia].
Qed.

(** ** What the policy is given *)

Lemma look_binary i j s s' :
  binary (world s) → binary (vision s) → look i j s = Done s' →
  binary (world s') ∧ binary (vision s').
Proof.
  intros Hw Hv. unfold look.
  intros (c & Hc & (v & Hset & [= <-])%bind_Done)%bind_Done.
  split; [done|]. cbn [vision set_vision].
  apply (np_set_binary (vision s) i j c v Hv); [|done].
  exact (np_get_binary _ _ _ _ Hw Hc).
Qed.

Lemma get_vision_binary s s' :
  binary (world s) → get_vision s = Done s' →
  binary (vision s') ∧ Forall (λ c, c = 0 ∨ c = 1) (vision_flat s').
Proof.
  intros Hw. unfold get_vision. intros (s1 & Hloop & [= <-])%bind_Done.
  assert (binary (world s1) ∧ binary (vision s1)) as [_ Hv].
  { revert Hloop.
    apply (for_each_preserves (λ t, binary (world t) ∧ binary (vision t))).
    - intros i s2 s3 Hs2.
      apply (for_each_preserves (λ t, binary (world t) ∧ binary (vision t)));
        [|done].
      intros j s4 s5 [? ?]. by apply look_binary.
    - split; [done|]. apply np_zeros_binary. }
  split; [done|]. cbn [vision_flat set_vision_flat]. unfold flatten.
  by apply Forall_concat.
Qed.

(** X5.  On a binary world the policy is only ever given zeros and ones:
    in a completed round the observation passed to [choose_action] has
    entries [0] or [1] only, and the reward passed with it is [0] or [1],
    [1] exactly when the agent's cell held a reward. *)
Theorem policy_inputs_binary fuel s s' :
  binary (world s) → tick fuel s = Done s' →
  Forall (λ c, c = 0 ∨ c = 1) (vision_flat s')
  ∧ (reward s' = 0 ∨ reward s' = 1)
  ∧ (reward s' = 1 ↔ np_get (world s) (bot_y s) (bot_x s) = Done 1)
  ∧ movement s' = (choose_action (ai_bot s) (vision_flat s') (reward s')).2.
Proof.
  intros Hbin Htick. pose proof Htick as (s1 & s2 & H1 & H2 & ->)%tick_Done.
  destruct (get_vision_binary _ _ Hbin H1) as [_ Hflat].
  apply get_vision_frame in H1 as [v ->].
  destruct (check_reward_signal _ _ _ H2) as (c & Hc & Hsig).
  cbn [world bot_x bot_y set_vision set_vision_flat] in Hc.
  pose proof (check_reward_frame _ _ _ H2) as Hs2.
  assert (vision_flat s2 = flatten v ∧ ai_bot s2 = ai_bot s) as [Hvf Hb]
    by (by rewrite Hs2).
  destruct (query_policy_fields s2) as (_ & _ & _ & Hqr & _ & Hqf & _ & Hqm & _).
  destruct (update_position_fields (query_policy s2))
    as (_ & Hur & _ & Huf & _ & Hum & _).
  cbn [draw movement vision_flat reward set_ai_bot].
  rewrite Hum, Hqm, Huf, Hqf, Hur, Hqr, Hvf, Hb, Hsig.
  cbn [vision_flat set_vision_flat] in Hflat.
  split_and!; try done.
  - case_bool_decide; auto.
  - rewrite Hc. case_bool_decide; split; try done; [by subst|congruence].
Qed.

(** ** What the reward block leaves alone *)

(** X6.  The reward block changes at most two cells of the world: the
    agent's cell and the cell the new reward is put on.  Every other cell
    of the grid reads after the block what it read before; and after a
    collection the agent's cell is empty unless the new reward fell on
    it. *)
Theorem reward_block_touches_two_cells fuel s s' :
  0 < WORLD_SIZE → game_ok s → check_reward fuel s = Done s' →
  ∃ ny nx, 0 ≤ ny < WORLD_SIZE ∧ 0 ≤ nx < WORLD_SIZE
    ∧ (∀ r c, 0 ≤ r < WORLD_SIZE → 0 ≤ c < WORLD_SIZE →
         (r, c) ≠ (bot_y s, bot_x s) → (r, c) ≠ (ny, nx) →
         np_get (world s') r c = np_get (world s) r c)
    ∧ (reward s' = 1 →
         np_get (world s') ny nx = Done 1
         ∧ ((ny, nx) ≠ (bot_y s, bot_x s) →
            np_get (world s') (bot_y s) (bot_x s) = Done 0)).
Proof.
  intros Hpos (Hshape & Hx & Hy) Hdone.
  pose proof Hdone as [(v & Hv & Hne & ->)|(Hget & w & Hset & Hspawn)]%check_reward_Done.
  - exists (bot_y s), (bot_x s). split_and!; try done; try lia.
  - apply spawn_new_reward_Done in Hspawn as (k & _ & Hhit & Hnew & _).
    cbn [world rng set_world set_reward] in Hhit, Hnew.
    pose proof (draw_y_range (rng s + 2 * k) Hpos) as Hny.
    pose proof (draw_x_range (rng s + 2 * k) Hpos) as Hnx.
    pose proof (np_set_shape _ _ _ _ _ _ _ Hshape Hset) as Hshape'.
    exists (draw_y (rng s + 2 * k)), (draw_x (rng s + 2 * k)).
    split_and!; try done; try lia.
    + intros r c Hr Hc Hbot Hnew'.
      rewrite (np_get_set_ne _ _ _ _ _ _ _ r c Hshape' Hny Hnx Hr Hc Hnew' Hnew).
      by rewrite (np_get_set_ne _ _ _ _ _ _ _ r c Hshape Hy Hx Hr Hc Hbot Hset).
    + intros _. split; [exact (np_get_set_eq _ _ _ _ _ _ _ Hshape' Hny Hnx Hnew)|].
      intros Hne.
      rewrite (np_get_set_ne _ _ _ _ _ _ _ (bot_y s) (bot_x s) Hshape' Hny Hnx
                 Hy Hx ltac:(congruence) Hnew).
      exact (np_get_set_eq _ _ _ _ _ _ _ Hshape Hy Hx Hset).
Qed.

(** ** The window and the moves *)

Lemma shift_mod (a r j n : Z) :
  ((a + 1) mod n - r + j) mod n = (a - r + (j + 1)) mod n
  ∧ ((a - 1) mod n - r + (j + 1)) mod n = (a - r + j) mod n.
Proof.
  split.
  - replace ((a + 1) mod n - r + j) with ((a + 1) mod n + (j - r)) by lia.
    rewrite Zplus_mod_idemp_l. f_equal. lia.
  - replace ((a - 1) mod n - r + (j + 1)) with ((a - 1) mod n + (j + 1 - r)) by lia.
    rewrite Zplus_mod_idemp_l. f_equal. lia.
Qed.

(** X7.  The window follows the agent.  On an unchanged world, after a move
    RIGHT column [j] of the new window is column [j + 1] of the old one,
    after LEFT column [j + 1] of the new is column [j] of the old; after
    DOWN row [i] of the new window is row [i + 1] of the old one, after UP
    row [i + 1] of the new is row [i] of the old. *)
Theorem window_follows_move s s1 t1 :
  0 < WORLD_SIZE → 0 ≤ VISION_SIZE → shape WORLD_SIZE WORLD_SIZE (world s) →
  get_vision s = Done s1 → get_vision (update_position s) = Done t1 →
  (movement s = 3 → ∀ i j, 0 ≤ i < VISION_SIZE → 0 ≤ j → j + 1 < VISION_SIZE →
     np_get (vision t1) i j = np_get (vision s1) i (j + 1))
  ∧ (movement s = 2 → ∀ i j, 0 ≤ i < VISION_SIZE → 0 ≤ j → j + 1 < VISION_SIZE →
       np_get (vision t1) i (j + 1) = np_get (vision s1) i j)
  ∧ (movement s = 1 → ∀ i j, 0 ≤ j < VISION_SIZE → 0 ≤ i → i + 1 < VISION_SIZE →
       np_get (vision t1) i j = np_get (vision s1) (i + 1) j)
  ∧ (movement s = 0 → ∀ i j, 0 ≤ j < VISION_SIZE → 0 ≤ i → i + 1 < VISION_SIZE →
       np_get (vision t1) (i + 1) j = np_get (vision s1) i j).
Proof.
  intros Hpos Hvs Hshape H1 H2.
  destruct (update_position_fields s) as (Hw & _).
  destruct (get_vision_Done s Hpos Hvs Hshape) as (v & Hget & _ & Hcells).
  destruct (get_vision_Done (update_position s) Hpos Hvs) as (v' & Hget' & _ & Hcells');
    [by rewrite Hw|].
  rewrite Hget in H1. injection H1 as <-.
  rewrite Hget' in H2. injection H2 as <-.
  cbn [vision set_vision set_vision_flat]. rewrite Hw in Hcells'.
  destruct (update_position_move s) as (M0 & M1 & M2 & M3).
  split_and!; intros Hm i j ? ? ?.
  - destruct (M3 Hm) as [Mx My].
    rewrite Hcells', Hcells by lia. unfold world_y_of, world_x_of.
    rewrite Mx, My. by rewrite (proj1 (shift_mod _ _ _ _)).
  - destruct (M2 Hm) as [Mx My].
    rewrite Hcells', Hcells by lia. unfold world_y_of, world_x_of.
    rewrite Mx, My. by rewrite (proj2 (shift_mod _ _ _ _)).
  - destruct (M1 Hm) as [Mx My].
    rewrite Hcells', Hcells by lia. unfold world_y_of, world_x_of.
    rewrite Mx, My. by rewrite (proj1 (shift_mod _ _ _ _)).
  - destruct (M0 Hm) as [Mx My].
    rewrite Hcells', Hcells by lia. unfold world_y_of, world_x_of.
    rewrite Mx, My. by rewrite (proj2 (shift_mod _ _ _ _)).
Qed.

(** X8.  Which window cells show the same world cell: two rows (columns)
    of the window address the same row (column) of the world exactly when
    their indices differ by a multiple of [WORLD_SIZE].  So a window no
    wider than the world never shows a world cell twice, and a wider one
    repeats the world with period [WORLD_SIZE]. *)
Theorem window_addresses s (i i' : Z) :
  0 < WORLD_SIZE →
  (world_y_of s i = world_y_of s i' ↔ (i - i') mod WORLD_SIZE = 0)
  ∧ (world_x_of s i = world_x_of s i' ↔ (i - i') mod WORLD_SIZE = 0)
  ∧ (VISION_SIZE ≤ WORLD_SIZE → 0 ≤ i < VISION_SIZE → 0 ≤ i' < VISION_SIZE →
     (world_y_of s i = world_y_of s i' → i = i')
     ∧ (world_x_of s i = world_x_of s i' → i = i'))
  ∧ world_y_of s (i + WORLD_SIZE) = world_y_of s i
  ∧ world_x_of s (i + WORLD_SIZE) = world_x_of s i.
Proof.
  intros Hpos. unfold world_y_of, world_x_of.
  assert (∀ a, (a + i) mod WORLD_SIZE = (a + i') mod WORLD_SIZE
               ↔ (i - i') mod WORLD_SIZE = 0) as Hcong.
  { intros a. rewrite Z.cong_iff_0. by replace (a + i - (a + i')) with (i - i') by lia. }
  assert ((i - i') mod WORLD_SIZE = 0 → 0 ≤ i < WORLD_SIZE →
          0 ≤ i' < WORLD_SIZE → i = i') as Hsmall.
  { intros Hz Hi Hi'. apply Z.cong_iff_0 in Hz.
    rewrite !Z.mod_small in Hz by lia. done. }
  split_and!.
  - apply Hcong.
  - apply Hcong.
  - intros Hle Hi Hi'. split; intros Heq%Hcong; apply Hsmall; lia.
  - replace (bot_y s - BOT_VISION_RANGE + (i + WORLD_SIZE))
      with (bot_y s - BOT_VISION_RANGE + i + 1 * WORLD_SIZE) by lia.
    apply Z_mod_plus_full.
  - replace (bot_x s - BOT_VISION_RANGE + (i + WORLD_SIZE))
      with (bot_x s - BOT_VISION_RANGE + i + 1 * WORLD_SIZE) by lia.
    apply Z_mod_plus_full.
Qed.

(** ** Drawing *)

Context {screen : Screen}.

Lemma elem_of_where_row (row : list Z) : ∀ j x,
  x ∈ where_row j row ↔ ∃ k : nat, x = j + Z.of_nat k ∧ row !! k = Some 1.
Proof.
  induction row as [|c row IH]; intros j x; cbn [where_row].
  - split; [by intros ?%elem_of_nil|by intros (k & _ & ?)].
  - assert (x ∈ where_row (j + 1) row
            ↔ ∃ k : nat, x = j + Z.of_nat (S k) ∧ row !! k = Some 1) as Htail.
    { rewrite IH. split; intros (k & -> & Hk); exists k; split; [lia|done|lia|done]. }
    case_bool_decide as Hc.
    + subst c. rewrite elem_of_cons, Htail. split.
      * intros [->|(k & -> & Hk)]; [exists O|exists (S k)]; split; [lia|done..].
      * intros ([|k] & -> & Hk); [left; lia|right; eauto].
    + rewrite Htail. split.
      * intros (k & -> & Hk). exists (S k). done.
      * intros ([|k] & -> & Hk); [|eauto]. simpl in Hk. congruence.
Qed.

Lemma length_where_row (row : list Z) : ∀ j,
  length (where_row j row) = row_rewards row.
Proof.
  unfold row_rewards. induction row as [|c row IH]; intros j; [done|].
  cbn [where_row]. rewrite filter_cons.
  case_bool_decide; case_decide; try done; simpl; by rewrite IH.
Qed.

Lemma NoDup_where_row (row : list Z) : ∀ j, NoDup (where_row j row).
Proof.
  induction row as [|c row IH]; intros j; cbn [where_row]; [constructor|].
  case_bool_decide; [|done]. constructor; [|done].
  intros (k & Hk & _)%elem_of_where_row. lia.
Qed.

Lemma elem_of_where_rows (a : list (list Z)) : ∀ i y x,
  (y, x) ∈ where_rows i a
  ↔ ∃ (k : nat) row, y = i + Z.of_nat k ∧ a !! k = Some row
                     ∧ x ∈ where_row 0 row.
Proof.
  induction a as [|r a IH]; intros i y x; cbn [where_rows].
  - split; [by intros ?%elem_of_nil|by intros (k & row & _ & ? & _)].
  - rewrite elem_of_app, list_elem_of_fmap, IH. split.
    + intros [(x' & [= -> ->] & Hx)|(k & row & -> & Hk & Hx)].
      * exists O, r. split_and!; [lia|done..].
      * exists (S k), row. split_and!; [lia|done..].
    + intros ([|k] & row & -> & Hk & Hx).
      * left. injection Hk as ->. exists x. split; [f_equal; lia|done].
      * right. exists k, row. split_and!; [lia|done..].
Qed.

Lemma length_where_rows (a : list (list Z)) : ∀ i,
  length (where_rows i a) = reward_count a.
Proof.
  unfold reward_count. induction a as [|r a IH]; intros i; [done|].
  cbn [where_rows sum_list_with].
  by rewrite length_app, length_fmap, length_where_row, IH.
Qed.

Lemma NoDup_where_rows (a : list (list Z)) : ∀ i, NoDup (where_rows i a).
Proof.
  induction a as [|r a IH]; intros i; cbn [where_rows]; [constructor|].
  apply NoDup_app. split_and!.
  - apply NoDup_fmap_2; [|apply NoDup_where_row]. by intros x y [= ->].
  - intros [y x] (x' & [= -> ->] & _)%list_elem_of_fmap
      (k & row & Hk & _)%elem_of_where_rows. lia.
  - apply IH.
Qed.

(** [np.argwhere(a == 1)] lists, without repetition, the cells of the array
    that read [1]. *)
Lemma np_argwhere_spec n m (a : list (list Z)) :
  shape n m a →
  NoDup (np_argwhere a)
  ∧ length (np_argwhere a) = reward_count a
  ∧ ∀ y x, (y, x) ∈ np_argwhere a
           ↔ 0 ≤ y < n ∧ 0 ≤ x < m ∧ np_get a y x = Done 1.
Proof.
  intros Ha. unfold np_argwhere.
  split; [apply NoDup_where_rows|]. split; [apply length_where_rows|].
  intros y x. rewrite elem_of_where_rows. split.
  - intros (k & row & -> & Hk & (j & -> & Hj)%elem_of_where_row).
    pose proof (lookup_lt_Some _ _ _ Hk) as Hklt.
    pose proof (lookup_lt_Some _ _ _ Hj) as Hjlt.
    pose proof (shape_lookup _ _ _ _ _ Ha Hk) as Hlen.
    assert (0 ≤ 0 + Z.of_nat k < n) as Hy by (destruct Ha; lia).
    assert (0 ≤ 0 + Z.of_nat j < m) as Hx by lia.
    split_and!; try lia.
    destruct (np_get_in_range _ _ _ _ _ Ha Hy Hx) as (row' & v & Hrow' & Hv & ->).
    replace (Z.to_nat (0 + Z.of_nat k)) with k in Hrow' by lia.
    replace (Z.to_nat (0 + Z.of_nat j)) with j in Hv by lia.
    congruence.
  - intros (Hy & Hx & Hget).
    destruct (np_get_in_range _ _ _ _ _ Ha Hy Hx) as (row & v & Hrow & Hv & Hget').
    rewrite Hget' in Hget. injection Hget as ->.
    exists (Z.to_nat y), row. split_and!; [lia|done|].
    apply elem_of_where_row. exists (Z.to_nat x). split; [lia|done].
Qed.

Lemma cell_rect_inj (y x y' x' : Z) :
  CELL_SIZE ≠ 0 → cell_rect y x = cell_rect y' x' → y = y' ∧ x = x'.
Proof.
  intros Hc. unfold cell_rect. intros [= Hx Hy].
  split; eapply Z.mul_reg_r; eauto.
Qed.

Lemma rect_call_inj col w (y x y' x' : Z) :
  CELL_SIZE ≠ 0 →
  RectCall col (cell_rect y x) w = RectCall col (cell_rect y' x') w →
  y = y' ∧ x = x'.
Proof. intros Hc Heq. apply cell_rect_inj; [done|]. congruence. Qed.

Lemma elem_of_draw_vision_field s (c : rect_call) :
  c ∈ draw_vision_field s
  ↔ ∃ i j, 0 ≤ i < VISION_SIZE ∧ 0 ≤ j < VISION_SIZE
           ∧ c = RectCall BLUE (cell_rect (world_y_of s i) (world_x_of s j)) 1.
Proof.
  unfold draw_vision_field. rewrite list_elem_of_bind. split.
  - intros (i & (j & -> & Hj%elem_of_seqZ)%list_elem_of_fmap & Hi%elem_of_seqZ).
    exists i, j. split_and!; [lia..|done].
  - intros (i & j & Hi & Hj & ->). exists i. split.
    + apply list_elem_of_fmap. exists j. split; [done|]. apply elem_of_seqZ. lia.
    + apply elem_of_seqZ. lia.
Qed.

Lemma length_draw_vision_field s :
  length (draw_vision_field s)
  = (Z.to_nat VISION_SIZE * Z.to_nat VISION_SIZE)%nat.
Proof.
  unfold draw_vision_field.
  assert (∀ l : list Z,
            length (l ≫= λ i,
                      (λ j, RectCall BLUE
                              (cell_rect (world_y_of s i) (world_x_of s j)) 1)
                        <$> seqZ 0 VISION_SIZE)
            = (length l * Z.to_nat VISION_SIZE)%nat) as Hlen.
  { induction l as [|i l IH]; [done|].
    rewrite bind_cons, length_app, length_fmap, length_seqZ, IH.
    cbn [length]. lia. }
  by rewrite Hlen, length_seqZ.
Qed.

(** X10.  What is painted green.  The drawing block paints the cell
    [(y, x)] green exactly when it is a cell of the grid that holds a
    reward, and paints as many green rectangles as the world has rewards,
    no cell twice; in all it makes one call per reward, one for the agent
    and one per cell of the vision field. *)
Theorem green_marks_rewards s :
  CELL_SIZE ≠ 0 → shape WORLD_SIZE WORLD_SIZE (world s) →
  (∀ y x, RectCall GREEN (cell_rect y x) 0 ∈ draw_world s
          ↔ 0 ≤ y < WORLD_SIZE ∧ 0 ≤ x < WORLD_SIZE
            ∧ np_get (world s) y x = Done 1)
  ∧ NoDup (draw_rewards s)
  ∧ length (draw_rewards s) = reward_count (world s)
  ∧ length (draw_world s)
    = (reward_count (world s) + 1
       + Z.to_nat VISION_SIZE * Z.to_nat VISION_SIZE)%nat.
Proof.
  intros Hc Hshape.
  destruct (np_argwhere_spec _ _ _ Hshape) as (Hnodup & Hlen & Hmem).
  split_and!.
  - intros y x. rewrite <- Hmem. unfold draw_world, draw_rewards, reward_positions.
    rewrite !elem_of_app, list_elem_of_fmap, list_elem_of_singleton,
      elem_of_draw_vision_field.
    split.
    + intros [([y' x'] & Heq & Hin)|[[=]|(i & j & _ & _ & [=])]].
      apply (rect_call_inj _ _ _ _ _ _ Hc) in Heq as [-> ->]. done.
    + intros Hin. left. by exists (y, x).
  - unfold draw_rewards, reward_positions. apply NoDup_fmap_2; [|done].
    intros [y x] [y' x'] Heq. cbn [fst snd] in Heq.
    by apply (rect_call_inj _ _ _ _ _ _ Hc) in Heq as [-> ->].
  - unfold draw_rewards, reward_positions. by rewrite length_fmap.
  - unfold draw_world, draw_rewards, reward_positions.
    rewrite !length_app, length_fmap, length_draw_vision_field, Hlen.
    cbn [length]. lia.
Qed.

(** X11.  Nothing is painted off the surface: on a well-formed state every
    rectangle the drawing block paints lies within [world_surface], the
    square of side [WORLD_SIZE * CELL_SIZE]; the vision field wraps round
    the edges instead of leaving the surface. *)
Theorem drawing_stays_on_surface s :
  0 < WORLD_SIZE → 0 ≤ CELL_SIZE → game_ok s →
  Forall (λ c, on_surface (rect c)) (draw_world s).
Proof.
  intros Hpos Hc (Hshape & Hx & Hy).
  assert (∀ y x, 0 ≤ y < WORLD_SIZE → 0 ≤ x < WORLD_SIZE →
            on_surface (cell_rect y x)) as Hcell.
  { intros y x Hy' Hx'. unfold on_surface, cell_rect, surface_size.
    cbn [fst snd]. nia. }
  destruct (np_argwhere_spec _ _ _ Hshape) as (_ & _ & Hmem).
  unfold draw_world. rewrite !Forall_app. split_and!.
  - unfold draw_rewards, reward_positions. apply Forall_fmap, Forall_forall.
    intros [y x] (Hy' & Hx' & _)%Hmem. by apply Hcell.
  - apply Forall_singleton. by apply Hcell.
  - apply Forall_forall. intros c (i & j & _ & _ & ->)%elem_of_draw_vision_field.
    apply Hcell; by apply Z.mod_pos_bound.
Qed.

(** X12.  What a round shows.  The drawing of a completed round is made
    on the state the round ends in: the agent and the frames of the vision
    field are painted at the position after the move, the rewards as they
    are after collection and respawn.  The window handed to
    [draw_neural_network], however, is the one extracted at the start of
    the round, at the position before the move and from the world before
    the collection. *)
Theorem round_drawing fuel s s' :
  0 < WORLD_SIZE → 0 ≤ VISION_SIZE → CELL_SIZE ≠ 0 → game_ok s →
  tick fuel s = Done s' →
  tick_drawing fuel s = Done (draw_world s')
  ∧ draw_bot s' ∈ draw_world s'
  ∧ (∀ y x, RectCall GREEN (cell_rect y x) 0 ∈ draw_world s'
            ↔ 0 ≤ y < WORLD_SIZE ∧ 0 ≤ x < WORLD_SIZE
              ∧ np_get (world s') y x = Done 1)
  ∧ (∀ i j, 0 ≤ i < VISION_SIZE → 0 ≤ j < VISION_SIZE →
       RectCall BLUE
         (cell_rect ((bot_y s' - VISION_SIZE / 2 + i) mod WORLD_SIZE)
                    ((bot_x s' - VISION_SIZE / 2 + j) mod WORLD_SIZE)) 1
       ∈ draw_world s')
  ∧ ai_bot s'
    = draw_neural_network
        (choose_action (ai_bot s) (vision_flat s') (reward s')).1 (vision s')
  ∧ (∀ i j, 0 ≤ i < VISION_SIZE → 0 ≤ j < VISION_SIZE →
       np_get (vision s') i j
       = read (world s) (bot_x s - VISION_SIZE / 2 + j)
                        (bot_y s - VISION_SIZE / 2 + i)).
Proof.
  intros Hpos Hvs Hc Hok Htick.
  pose proof (tick_ok _ _ _ Hpos Hok Htick) as (Hshape' & _).
  destruct (tick_ordering _ _ _ Hpos Hvs Hok Htick)
    as (s1 & s2 & H1 & _ & _ & _ & Hcells & _ & H2 & _).
  pose proof Htick as (t1 & t2 & T1 & T2 & Hs')%tick_Done.
  rewrite H1 in T1. injection T1 as <-. rewrite H2 in T2. injection T2 as <-.
  pose proof (check_reward_frame _ _ _ H2) as Hs2.
  apply get_vision_frame in H1 as Hf. destruct Hf as [v Hs1].
  assert (vision s2 = vision s1 ∧ vision_flat s2 = vision_flat s1
          ∧ ai_bot s2 = ai_bot s) as (Hv2 & Hvf2 & Hb2).
  { rewrite Hs2, Hs1. done. }
  destruct (query_policy_fields s2)
    as (_ & _ & _ & Hqr & Hqv & Hqf & _ & _ & Hqb).
  destruct (update_position_fields (query_policy s2))
    as (_ & Hur & Huv & Huf & _ & _ & Hub).
  assert (draw_world s' = draw_world (update_position (query_policy s2))) as Hdraw
    by (by rewrite Hs').
  split_and!.
  - unfold tick_drawing. rewrite H1. cbn [mbind outcome_bind]. rewrite H2.
    cbn [mbind outcome_bind]. by rewrite Hdraw.
  - unfold draw_world. rewrite !elem_of_app, list_elem_of_singleton. auto.
  - apply green_marks_rewards; done.
  - intros i j Hi Hj. unfold draw_world.
    rewrite !elem_of_app, elem_of_draw_vision_field. right. right.
    exists i, j. done.
  - rewrite Hs'. cbn [draw ai_bot vision vision_flat reward set_ai_bot].
    by rewrite Hub, Hqb, Huv, Hqv, Huf, Hqf, Hur, Hqr, Hb2, Hvf2.
  - intros i j Hi Hj. rewrite Hs'. cbn [draw vision set_ai_bot].
    rewrite Huv, Hqv, Hv2. by apply Hcells.
Qed.

(** ** How many rewards start-up places *)

(** X13.  Start-up places one reward per distinct cell drawn: the reward
    cells after start-up are exactly the cells the spawn loop drew, and
    their number is the number of different cells among the
    [REWARD_AMOUNT] draws. *)
Theorem start_up_reward_count :
  0 < WORLD_SIZE → 0 ≤ REWARD_AMOUNT →
  ∃ s0, init = Done s0
    ∧ (∀ p, p ∈ reward_positions s0 ↔ p ∈ drawn_cells)
    ∧ reward_count (world s0) = length (remove_dups drawn_cells).
Proof.
  intros Hpos Hamount.
  destruct (init_under_placement Hpos Hamount)
    as (s0 & Hinit & Hshape & _ & Hdrawn & Honly & _).
  destruct (np_argwhere_spec _ _ _ Hshape) as (Hnodup & Hlen & Hmem).
  assert (∀ p, p ∈ reward_positions s0 ↔ p ∈ drawn_cells) as Hsame.
  { intros [y x]. unfold reward_positions, drawn_cells.
    rewrite Hmem, list_elem_of_fmap. split.
    - intros (Hy & Hx & Hget). destruct (Honly y x Hy Hx Hget) as (k & Hk & -> & ->).
      exists k. split; [done|]. apply elem_of_seq. lia.
    - intros (k & [= -> ->] & Hk%elem_of_seq).
      destruct (Hdrawn k) as (? & ? & ?); [lia|]. done. }
  exists s0. split_and!; [done..|].
  rewrite <- Hlen. apply Permutation_length, NoDup_Permutation.
  - done.
  - apply NoDup_remove_dups.
  - intros p. rewrite elem_of_remove_dups. apply Hsame.
Qed.

(** ** Calls of the random generator *)

(** X14.  A round calls [random.randint] only in the respawn search, twice
    per candidate cell: a round without collection makes no call, a round
    with a collection makes [2 * k] calls for some [k >= 1], the first
    [k - 1] candidate cells having been found occupied. *)
Theorem draws_per_round fuel s s' :
  tick fuel s = Done s' →
  ∃ k : nat, rng s' = (rng s + 2 * k)%nat ∧ (k ≤ fuel)%nat
    ∧ (reward s' = 0 → k = O)
    ∧ (reward s' = 1 → (1 ≤ k)%nat
       ∧ ∃ w, np_set (world s) (bot_y s) (bot_x s) 0 = Done w
           ∧ (∀ k' : nat, (k' < k - 1)%nat →
                ∃ v, np_get w (draw_y (rng s + 2 * k')) (draw_x (rng s + 2 * k'))
                     = Done v ∧ v ≠ 0)
           ∧ np_get w (draw_y (rng s + 2 * (k - 1))) (draw_x (rng s + 2 * (k - 1)))
             = Done 0).
Proof.
  intros (s1 & s2 & H1 & H2 & ->)%tick_Done.
  apply get_vision_frame in H1 as [v ->].
  destruct (query_policy_fields s2) as (_ & _ & _ & Hqr & _ & _ & Hqg & _).
  destruct (update_position_fields (query_policy s2))
    as (_ & Hur & _ & _ & Hug & _).
  cbn [draw rng reward set_ai_bot]. rewrite Hug, Hqg, Hur, Hqr.
  apply check_reward_Done in H2
    as [(c & Hc & Hne & ->)|(Hget & w & Hset & Hspawn)].
  - exists O. cbn [rng reward set_reward set_vision set_vision_flat].
    split_and!; [lia|lia|done|done].
  - apply spawn_new_reward_Done in Hspawn as (k & Hk & Hhit & _ & Hs2 & Hbefore).
    cbn [world rng bot_x bot_y set_world set_reward set_vision set_vision_flat]
      in Hset, Hhit, Hs2, Hbefore.
    assert (rng s2 = (rng s + 2 * k + 2)%nat ∧ reward s2 = 1) as [-> ->]
      by (by rewrite Hs2).
    exists (S k). split_and!; [lia|lia|done|].
    intros _. split; [lia|]. exists w.
    replace (S k - 1)%nat with k by lia. done.
Qed.

End Further.

(** ** The further properties at the script's own parameters *)

Lemma opposite_moves_cancel_witness :
  bot_x (update_position (params := source_params)
           (set_movement 3 (update_position (params := source_params)
                              (set_movement 2 (standing 0 99 lone_reward)))))
  = 0
  ∧ bot_y (update_position (params := source_params)
             (set_movement 0 (update_position (params := source_params)
                                (set_movement 1 (standing 0 99 lone_reward)))))
    = 99.
Proof.
  pose proof (@opposite_moves_cancel source_params unit
                (standing 0 99 lone_reward) ltac:(evaluate) ltac:(evaluate)
                ltac:(evaluate)) as Hback.
  split.
  - exact (proj1 (Hback 2 3 ltac:(auto))).
  - exact (proj2 (Hback 1 0 ltac:(auto))).
Defined.

(** A hundred rounds RIGHT on the grid of side 100 bring the agent back to
    its start. *)
Lemma steady_policy_walk_witness :
  ∃ s', run (params := source_params) (policy := always 3)
          (ent := stepping_entropy) 5 100 (at_start lone_reward) = Done s'
    ∧ bot_x s' = 1 ∧ bot_y s' = 1.
Proof.
  assert (∃ s', run (params := source_params) (policy := always 3)
                  (ent := stepping_entropy) 5 100 (at_start lone_reward)
                = Done s') as [s' Hs']
    by (eexists; vm_compute; reflexivity).
  exists s'. split; [exact Hs'|].
  refine (proj2 (proj2 (proj2 (proj2
            (@steady_policy_walk source_params unit (always 3) stepping_entropy
               5 100 3 (at_start lone_reward) s' ltac:(evaluate)
               ltac:(evaluate) ltac:(evaluate) _ Hs')))) _ _).
  - intros b o r. reflexivity.
  - lia.
  - reflexivity.
Defined.

Lemma rounds_never_raise_witness :
  run (params := source_params) (policy := always 3) (ent := stepping_entropy)
    5 20 (at_start lone_reward) ≠ Raise IndexError.
Proof.
  exact (proj1 (@rounds_never_raise source_params unit (always 3)
                  stepping_entropy 5 20 (at_start lone_reward)
                  ltac:(evaluate) ltac:(evaluate) ltac:(evaluate))
           IndexError).
Defined.

Lemma start_up_then_rounds_witness :
  ∃ s0, init (params := source_params) (policy := always 3)
          (ent := stepping_entropy) = Done s0
    ∧ game_ok (params := source_params) s0
    ∧ ∀ s', run (params := source_params) (policy := always 3)
              (ent := stepping_entropy) 5 20 s0 = Done s' →
            Z.of_nat (reward_count (world s')) ≤ 400.
Proof.
  destruct (@start_up_then_rounds source_params unit (always 3) stepping_entropy
              ltac:(evaluate) ltac:(evaluate) ltac:(evaluate))
    as (s0 & Hinit & Hok & _ & _ & _ & Hrounds).
  exists s0. split; [exact Hinit|]. split; [exact Hok|].
  intros s' Hs'.
  exact (proj2 (proj2 (proj2 (proj2 (Hrounds 5%nat 20%nat) s' Hs')))).
Defined.

Lemma policy_inputs_binary_witness :
  ∃ s', tick (params := source_params) (policy := always 3)
          (ent := stepping_entropy) 5 (at_start lone_reward) = Done s'
    ∧ Forall (λ c, c = 0 ∨ c = 1) (vision_flat s')
    ∧ (reward s' = 0 ∨ reward s' = 1).
Proof.
  assert (∃ s', tick (params := source_params) (policy := always 3)
                  (ent := stepping_entropy) 5 (at_start lone_reward) = Done s')
    as [s' Hs'] by (eexists; vm_compute; reflexivity).
  destruct (@policy_inputs_binary source_params unit (always 3) stepping_entropy
              5 (at_start lone_reward) s' ltac:(evaluate) Hs')
    as (Hobs & Hrew & _).
  exists s'. repeat split; assumption.
Defined.

Lemma reward_block_touches_two_cells_witness :
  ∃ s' ny nx,
    check_reward (params := source_params) (ent := stepping_entropy) 5
      (at_start two_rewards) = Done s'
    ∧ (∀ r c, 0 ≤ r < 100 → 0 ≤ c < 100 → (r, c) ≠ (1, 1) → (r, c) ≠ (ny, nx) →
         np_get (world s') r c = np_get two_rewards r c).
Proof.
  assert (∃ s', check_reward (params := source_params) (ent := stepping_entropy)
                  5 (at_start two_rewards) = Done s') as [s' Hs']
    by (eexists; vm_compute; reflexivity).
  destruct (@reward_block_touches_two_cells source_params unit stepping_entropy
              5 (at_start two_rewards) s' ltac:(evaluate) ltac:(evaluate) Hs')
    as (ny & nx & _ & _ & Hframe & _).
  exists s', ny, nx. split; [exact Hs'|exact Hframe].
Defined.

(** The agent left of the reward moves RIGHT: what was right of the centre
    of its window is now at the centre. *)
Lemma window_follows_move_witness :
  ∃ s1 t1,
    get_vision (params := source_params)
      (set_movement 3 (standing 0 1 lone_reward)) = Done s1
    ∧ get_vision (params := source_params)
        (update_position (params := source_params)
           (set_movement 3 (standing 0 1 lone_reward))) = Done t1
    ∧ np_get (vision t1) 3 3 = np_get (vision s1) 3 4.
Proof.
  assert (∃ s1 t1,
            get_vision (params := source_params)
              (set_movement 3 (standing 0 1 lone_reward)) = Done s1
            ∧ get_vision (params := source_params)
                (update_position (params := source_params)
                   (set_movement 3 (standing 0 1 lone_reward))) = Done t1)
    as (s1 & t1 & H1 & H2)
    by (do 2 eexists; split; vm_compute; reflexivity).
  exists s1, t1. split; [exact H1|]. split; [exact H2|].
  exact (proj1 (@window_follows_move source_params unit
                  (set_movement 3 (standing 0 1 lone_reward)) s1 t1
                  ltac:(evaluate) ltac:(evaluate) ltac:(evaluate) H1 H2)
           ltac:(reflexivity) 3 3 ltac:(evaluate) ltac:(lia) ltac:(evaluate)).
Defined.

Lemma window_addresses_witness :
  world_y_of (params := source_params) (at_start lone_reward) 103
  = world_y_of (params := source_params) (at_start lone_reward) 3.
Proof.
  exact (proj2 (proj1 (@window_addresses source_params unit
                         (at_start lone_reward) 103 3 ltac:(evaluate)))
           ltac:(reflexivity)).
Defined.

Lemma green_marks_rewards_witness :
  RectCall GREEN (cell_rect (screen := source_screen) 1 2) 0
  ∈ draw_world (params := source_params) (screen := source_screen)
      (at_start two_rewards)
  ∧ length (draw_world (params := source_params) (screen := source_screen)
              (at_start two_rewards))
    = (reward_count two_rewards + 1 + 7 * 7)%nat.
Proof.
  destruct (@green_marks_rewards source_params unit source_screen
              (at_start two_rewards) ltac:(evaluate) ltac:(evaluate))
    as (Hgreen & _ & _ & Hcalls).
  split; [|exact Hcalls].
  apply Hgreen. split; [evaluate|]. split; evaluate.
Defined.

Lemma drawing_stays_on_surface_witness :
  Forall (λ c, on_surface (params := source_params) (screen := source_screen)
                 (rect c))
    (draw_world (params := source_params) (screen := source_screen)
       (standing 99 0 two_rewards)).
Proof.
  exact (@drawing_stays_on_surface source_params unit source_screen
           (standing 99 0 two_rewards) ltac:(evaluate) ltac:(evaluate)
           ltac:(evaluate)).
Defined.

Lemma round_drawing_witness :
  ∃ s', tick (params := source_params) (policy := always 3)
          (ent := stepping_entropy) 5 (at_start two_rewards) = Done s'
    ∧ tick_drawing (params := source_params) (screen := source_screen)
        (policy := always 3) (ent := stepping_entropy) 5 (at_start two_rewards)
      = Done (draw_world (params := source_params) (screen := source_screen) s')
    ∧ np_get (vision s') 3 3
      = read (params := source_params) two_rewards (1 - 7 / 2 + 3) (1 - 7 / 2 + 3).
Proof.
  assert (∃ s', tick (params := source_params) (policy := always 3)
                  (ent := stepping_entropy) 5 (at_start two_rewards) = Done s')
    as [s' Hs'] by (eexists; vm_compute; reflexivity).
  destruct (@round_drawing source_params unit (always 3) stepping_entropy
              source_screen 5 (at_start two_rewards) s' ltac:(evaluate)
              ltac:(evaluate) ltac:(evaluate) ltac:(evaluate) Hs')
    as (Hdraw & _ & _ & _ & _ & Hvision).
  exists s'. split; [exact Hs'|]. split; [exact Hdraw|].
  exact (Hvision 3 3 ltac:(evaluate) ltac:(evaluate)).
Defined.

Lemma start_up_reward_count_witness :
  ∃ s0, init (params := source_params) (policy := always 3)
          (ent := stepping_entropy) = Done s0
    ∧ reward_count (world s0)
      = length (remove_dups (drawn_cells (params := source_params)
                               (ent := stepping_entropy))).
Proof.
  destruct (@start_up_reward_count source_params unit (always 3)
              stepping_entropy ltac:(evaluate) ltac:(evaluate))
    as (s0 & Hinit & _ & Hcount).
  exists s0. split; [exact Hinit|exact Hcount].
Defined.

Lemma draws_per_round_witness :
  ∃ s' (k : nat),
    tick (params := source_params) (policy := always 3)
      (ent := stepping_entropy) 5 (at_start lone_reward) = Done s'
    ∧ rng s' = (0 + 2 * k)%nat ∧ (k ≤ 5)%nat.
Proof.
  assert (∃ s', tick (params := source_params) (policy := always 3)
                  (ent := stepping_entropy) 5 (at_start lone_reward) = Done s')
    as [s' Hs'] by (eexists; vm_compute; reflexivity).
  destruct (@draws_per_round source_params unit (always 3) stepping_entropy
              5 (at_start lone_reward) s' Hs') as (k & Hrng & Hk & _).
  exists s', k. split; [exact Hs'|]. split; [exact Hrng|exact Hk].
Defined.
